(** * Supervisor: a shallow embedding of [supervisor.js]

    The supervisor is a single-threaded Node.js program: every state
    change happens inside a callback run to completion by the event loop.
    The embedding follows that shape.  The global [supervisorState] object
    is a record, the Node runtime around it (child process objects, pending
    timers, the promises of the shutdown sequence, the process exit status)
    is a second record [World], and every JavaScript function is a
    computation in a small state monad over [World].  One event of the
    event loop is one call of [dispatch].

    What is modelled of the runtime:
    - [Date.now()] is the time at which the current reaction runs;
    - [setTimeout] and [setInterval] put a callback in a table of pending
      timers, a timer fires no earlier than its delay allows, and
      [clearTimeout]/[clearInterval] remove it from the table;
    - a [ChildProcess] object has Node's [killed] flag, which [kill()] sets
      when it delivers a signal and which says nothing about termination,
      and [kill()] delivers nothing once the process is gone;
    - [process.exit] ends everything: no event is handled afterwards;
    - an exception thrown by a listener reaches the process as
      ['uncaughtException'].

    Two assumptions limit the model.  Every [spawn] yields a child with a
    process and a pid: a child that cannot be spawned (no handle, no pid,
    an ['error'] event without an ['exit'] event) is outside it, and an
    ['error'] event leaves the process of the child as it is.  And timers
    and [Date.now()] share one clock, which the runs of [reachable] read
    in non-decreasing order; a property that depends on the order of the
    readings says so in its statement ([steady]).

    The logger only writes to the console: its level test is modelled and
    its output is not.  The two HTTP endpoints only read the state: a
    request is a reaction of the event loop that changes nothing, and what
    it answers is the function [healthResponse].  The report of the test
    suite is modelled apart from the supervisor. *)

From Stdlib Require Import ZArith NArith List Bool String Ascii Lia.
From Stdlib Require Import DecimalString Sorted.
From stdpp Require Import base option list gmap fin_maps.

Local Open Scope Z_scope.

(** ** JavaScript strings

    A JavaScript string is a sequence of UTF-16 code units. *)

Definition jsstring := list N.

(** String literals of the source are written [js "..."]. *)
Definition js (s : string) : jsstring :=
  List.map N_of_ascii (list_ascii_of_string s).

(** [a || b] on strings: the empty string is falsy, and so is [undefined]
    (an absent environment variable or argument). *)
Definition or_default (v : option jsstring) (d : jsstring) : jsstring :=
  match v with
  | Some (c :: s) => c :: s
  | _ => d
  end.

Definition truthy (s : jsstring) : bool :=
  match s with [] => false | _ :: _ => true end.

Definition jsstring_eqb (a b : jsstring) : bool := bool_decide (a = b).

(** The code units removed by [String.prototype.trim]: WhiteSpace and
    LineTerminator of ECMA-262. *)
Definition is_trimmed_unit (c : N) : bool :=
  ((9 <=? c) && (c <=? 13) ||
   (c =? 32) || (c =? 160) || (c =? 5760) ||
   (8192 <=? c) && (c <=? 8202) ||
   (c =? 8232) || (c =? 8233) || (c =? 8239) || (c =? 8287) ||
   (c =? 12288) || (c =? 65279))%N.

Fixpoint trimStart (s : jsstring) : jsstring :=
  match s with
  | c :: s' => if is_trimmed_unit c then trimStart s' else s
  | [] => []
  end.

Definition trimEnd (s : jsstring) : jsstring := rev (trimStart (rev s)).

Definition trim (s : jsstring) : jsstring := trimEnd (trimStart s).

(** [s.slice(-n)]: the last [n] code units, the whole string when it is
    shorter. *)
Definition slice_last (n : nat) (s : jsstring) : jsstring :=
  drop (length s - n)%nat s.

(** Template literals print numbers in decimal. *)
Definition number_to_string (z : Z) : jsstring :=
  js (NilZero.string_of_int (Z.to_int z)).

(** ** CONFIG *)

Module CONFIG.
Definition STREAM_TIMEOUT_MS : Z := 300000.
Definition HANG_CHECK_INTERVAL_MS : Z := 5000.
Definition MAX_RESTARTS : Z := 3.
Definition RESTART_DELAY_MS : Z := 2000.
Definition RESTART_WINDOW_MS : Z := 3600000.
Definition GRACEFUL_SHUTDOWN_TIMEOUT_MS : Z := 10000.
Definition SIGKILL_DELAY_MS : Z := 5000.
End CONFIG.

(** ** The global state object *)

(** [claudeProcess] holds a reference to a [ChildProcess] object: an index
    into the table of child objects of the [World].  [httpServer] is [null]
    or the server object; only its presence is ever tested.
    [hangDetectionInterval] is [null] or a timer handle. *)
Record SupervisorState := mkState {
  claudeProcess : option nat;
  httpServer : bool;
  startTime : Z;
  lastOutputTs : Z;
  lastOutputLine : jsstring;
  streamActive : bool;
  restartCount : Z;
  restartTimestamps : list Z;
  sessionId : jsstring;
  claudeCommand : jsstring;
  shuttingDown : bool;
  exitCode : option Z;
  hangDetectionInterval : option nat
}.

Definition set_claudeProcess v s := mkState v (httpServer s) (startTime s)
  (lastOutputTs s) (lastOutputLine s) (streamActive s) (restartCount s)
  (restartTimestamps s) (sessionId s) (claudeCommand s) (shuttingDown s)
  (exitCode s) (hangDetectionInterval s).
Definition set_httpServer v s := mkState (claudeProcess s) v (startTime s)
  (lastOutputTs s) (lastOutputLine s) (streamActive s) (restartCount s)
  (restartTimestamps s) (sessionId s) (claudeCommand s) (shuttingDown s)
  (exitCode s) (hangDetectionInterval s).
Definition set_lastOutputTs v s := mkState (claudeProcess s) (httpServer s)
  (startTime s) v (lastOutputLine s) (streamActive s) (restartCount s)
  (restartTimestamps s) (sessionId s) (claudeCommand s) (shuttingDown s)
  (exitCode s) (hangDetectionInterval s).
Definition set_lastOutputLine v s := mkState (claudeProcess s) (httpServer s)
  (startTime s) (lastOutputTs s) v (streamActive s) (restartCount s)
  (restartTimestamps s) (sessionId s) (claudeCommand s) (shuttingDown s)
  (exitCode s) (hangDetectionInterval s).
Definition set_streamActive v s := mkState (claudeProcess s) (httpServer s)
  (startTime s) (lastOutputTs s) (lastOutputLine s) v (restartCount s)
  (restartTimestamps s) (sessionId s) (claudeCommand s) (shuttingDown s)
  (exitCode s) (hangDetectionInterval s).
Definition set_restartCount v s := mkState (claudeProcess s) (httpServer s)
  (startTime s) (lastOutputTs s) (lastOutputLine s) (streamActive s) v
  (restartTimestamps s) (sessionId s) (claudeCommand s) (shuttingDown s)
  (exitCode s) (hangDetectionInterval s).
Definition set_restartTimestamps v s := mkState (claudeProcess s)
  (httpServer s) (startTime s) (lastOutputTs s) (lastOutputLine s)
  (streamActive s) (restartCount s) v (sessionId s) (claudeCommand s)
  (shuttingDown s) (exitCode s) (hangDetectionInterval s).
Definition set_shuttingDown v s := mkState (claudeProcess s) (httpServer s)
  (startTime s) (lastOutputTs s) (lastOutputLine s) (streamActive s)
  (restartCount s) (restartTimestamps s) (sessionId s) (claudeCommand s) v
  (exitCode s) (hangDetectionInterval s).
Definition set_exitCode v s := mkState (claudeProcess s) (httpServer s)
  (startTime s) (lastOutputTs s) (lastOutputLine s) (streamActive s)
  (restartCount s) (restartTimestamps s) (sessionId s) (claudeCommand s)
  (shuttingDown s) v (hangDetectionInterval s).
Definition set_hangDetectionInterval v s := mkState (claudeProcess s)
  (httpServer s) (startTime s) (lastOutputTs s) (lastOutputLine s)
  (streamActive s) (restartCount s) (restartTimestamps s) (sessionId s)
  (claudeCommand s) (shuttingDown s) (exitCode s) v.

(** The object literal of the source, evaluated at module load: [now] is
    [Date.now()], [env_session] is [process.env.SESSION_ID] and [arg] is
    [process.argv[2]]. *)
Definition initialState (env_session arg : option jsstring) (now : Z)
  : SupervisorState :=
  {| claudeProcess := None;
     httpServer := false;
     startTime := now;
     lastOutputTs := now;
     lastOutputLine := [];
     streamActive := false;
     restartCount := 0;
     restartTimestamps := [];
     sessionId := or_default env_session (js "unknown");
     claudeCommand := or_default arg [];
     shuttingDown := false;
     exitCode := None;
     hangDetectionInterval := None |}.

(** ** The runtime around the state object *)

Inductive KillSignal := SIGTERM | SIGKILL.

(** A [ChildProcess] object.  [killed] is Node's flag of that name: set by
    a [kill()] call that delivered its signal, it does not say that the
    child has terminated.  [running] tells whether the operating-system
    process still exists; [kill()] delivers nothing once it is gone. *)
Record ChildProcess := mkChild {
  pid : nat;
  killed : bool;
  running : bool
}.

(** The callbacks the source hands to [setInterval] and [setTimeout].  The
    child named in [HangSigkill] and [ForceKill] is the [pid] that the
    closure captures for its log line; the callback itself acts on
    [supervisorState.claudeProcess] as it is when the timer fires. *)
Inductive Task :=
| HangCheck                               (* startHangDetection *)
| HangSigkill (p : nat)                   (* killHangingProcess *)
| RestartAttempt                          (* scheduleRestart *)
| ForceKill (p : nat)                     (* gracefulShutdown, step 3 *)
| CleanupTimeout (code : Z) (reason : jsstring). (* gracefulShutdown *)

Record Timer := mkTimer {
  task : Task;
  due : Z;
  period : option Z  (* [Some] for setInterval *)
}.

(** The promises of [gracefulShutdown]: which of the two cleanup tasks are
    still unsettled, and the arguments that the [then] callback of
    [Promise.allSettled] passes to [finalExit]. *)
Record Cleanup := mkCleanup {
  httpPending : bool;
  childPending : option (nat * nat);  (* child, forceKillTimer *)
  cleanupCode : Z;
  cleanupReason : jsstring
}.

Inductive Effect :=
| Spawned (p : nat)
| KillCall (p : nat) (s : KillSignal) (delivered : bool)
| ServerClose.

Record World := mkWorld {
  st : SupervisorState;
  clock : Z;
  children : list ChildProcess;
  timers : gmap nat Timer;
  nextTimer : nat;
  initPending : bool;
  cleanup : option Cleanup;
  trace : list Effect;
  exited : option (Z * option jsstring)
}.

Definition set_st v w := mkWorld v (clock w) (children w) (timers w)
  (nextTimer w) (initPending w) (cleanup w) (trace w) (exited w).
Definition set_clock v w := mkWorld (st w) v (children w) (timers w)
  (nextTimer w) (initPending w) (cleanup w) (trace w) (exited w).
Definition set_children v w := mkWorld (st w) (clock w) v (timers w)
  (nextTimer w) (initPending w) (cleanup w) (trace w) (exited w).
Definition set_timers v w := mkWorld (st w) (clock w) (children w) v
  (nextTimer w) (initPending w) (cleanup w) (trace w) (exited w).
Definition set_nextTimer v w := mkWorld (st w) (clock w) (children w)
  (timers w) v (initPending w) (cleanup w) (trace w) (exited w).
Definition set_initPending v w := mkWorld (st w) (clock w) (children w)
  (timers w) (nextTimer w) v (cleanup w) (trace w) (exited w).
Definition set_cleanup v w := mkWorld (st w) (clock w) (children w)
  (timers w) (nextTimer w) (initPending w) v (trace w) (exited w).
Definition set_trace v w := mkWorld (st w) (clock w) (children w)
  (timers w) (nextTimer w) (initPending w) (cleanup w) v (exited w).
Definition set_exited v w := mkWorld (st w) (clock w) (children w)
  (timers w) (nextTimer w) (initPending w) (cleanup w) (trace w) v.

(** ** The monad of callbacks *)

Definition M (A : Type) : Type := World -> A * World.

Definition ret {A} (a : A) : M A := fun w => (a, w).
Definition bind {A B} (m : M A) (k : A -> M B) : M B :=
  fun w => let (a, w') := m w in k a w'.

Declare Scope sup_scope.
Delimit Scope sup_scope with sup.
Notation "'let*' x ':=' m 'in' k" := (bind m (fun x => k))
  (at level 10, x name, m at level 200, k at level 200) : sup_scope.
Notation "m ;;; k" := (bind m (fun _ => k))
  (at level 100, k at level 200, right associativity) : sup_scope.

Definition exec {A} (m : M A) (w : World) : World := snd (m w).
Definition eval {A} (m : M A) (w : World) : A := fst (m w).

(** Reading and writing the fields of [supervisorState]. *)
Definition read {A} (f : SupervisorState -> A) : M A :=
  fun w => (f (st w), w).
Definition write (f : SupervisorState -> SupervisorState) : M unit :=
  fun w => (tt, set_st (f (st w)) w).

Definition Date_now : M Z := fun w => (clock w, w).
Definition emit (e : Effect) : M unit :=
  fun w => (tt, set_trace (trace w ++ [e]) w).
Definition skip : M unit := ret tt.

Local Open Scope sup_scope.

(** ** Runtime primitives *)

(** [process.exit(code)].  Nothing runs after it: no event is [enabled]
    once [exited] is set, and a second exit changes nothing. *)
Definition process_exit (code : Z) (reason : option jsstring) : M unit :=
  fun w => match exited w with
           | Some _ => (tt, w)
           | None => (tt, set_exited (Some (code, reason)) w)
           end.

(** [setTimeout(task, delay)] and [setInterval(task, delay)] return a fresh
    handle. *)
Definition arm (t : Task) (delay : Z) (p : option Z) : M nat :=
  fun w => let id := nextTimer w in
           (id, set_nextTimer (S id)
                  (set_timers (<[id := mkTimer t (clock w + delay) p]> (timers w)) w)).

Definition setTimeout (t : Task) (delay : Z) : M nat := arm t delay None.
Definition setInterval (t : Task) (delay : Z) : M nat := arm t delay (Some delay).

(** [clearTimeout(h)] and [clearInterval(h)]; both accept [null] and
    handles that have already fired or been cleared. *)
Definition clearTimer (h : option nat) : M unit :=
  fun w => match h with
           | Some id => (tt, set_timers (delete id (timers w)) w)
           | None => (tt, w)
           end.

(** [spawn('claude', ...)]: a new [ChildProcess] object. *)
Definition spawn : M nat :=
  fun w => let p := length (children w) in
           (p, set_trace (trace w ++ [Spawned p])
                 (set_children (children w ++ [mkChild p false true]) w)).

(** [child.killed] *)
Definition child_killed (p : nat) : M bool :=
  fun w => (match children w !! p with
            | Some c => killed c
            | None => false
            end, w).

(** [child.kill(signal)]: delivers the signal and sets [killed] while the
    process exists, and does nothing otherwise. *)
Definition kill (p : nat) (s : KillSignal) : M unit :=
  fun w => match children w !! p with
           | Some c =>
               if running c
               then (tt, set_trace (trace w ++ [KillCall p s true])
                           (set_children
                              (<[p := mkChild (pid c) true (running c)]> (children w)) w))
               else (tt, set_trace (trace w ++ [KillCall p s false]) w)
           | None => (tt, w)
           end.

Definition get_cleanup : M (option Cleanup) := fun w => (cleanup w, w).
Definition put_cleanup (c : option Cleanup) : M unit :=
  fun w => (tt, set_cleanup c w).

(** ** GRACEFUL SHUTDOWN *)

Definition finalExit (exitCode : Z) (reason : jsstring) : M unit :=
  process_exit exitCode (Some reason).

(** The [then] callback of [Promise.allSettled(cleanupTasks)]: it runs, as
    a microtask of the reaction that settles the last task, once no cleanup
    task is pending. *)
Definition allSettled : M unit :=
  let* c := get_cleanup in
  match c with
  | Some c =>
      if httpPending c || bool_decide (is_Some (childPending c)) then skip
      else finalExit (cleanupCode c) (cleanupReason c)
  | None => skip
  end.

(** [resolve()] of the two cleanup promises. *)
Definition resolveHttp : M unit :=
  let* c := get_cleanup in
  match c with
  | Some c => put_cleanup (Some (mkCleanup false (childPending c)
                                   (cleanupCode c) (cleanupReason c)))
  | None => skip
  end.

Definition resolveChild : M unit :=
  let* c := get_cleanup in
  match c with
  | Some c => put_cleanup (Some (mkCleanup (httpPending c) None
                                   (cleanupCode c) (cleanupReason c)))
  | None => skip
  end.

Definition gracefulShutdown (exitCode : Z) (reason : jsstring) : M unit :=
  let* sd := read shuttingDown in
  if sd then skip
  else
    write (set_shuttingDown true) ;;;
    write (set_exitCode (Some exitCode)) ;;;
    (* 1. Stop hang detection *)
    (let* h := read hangDetectionInterval in clearTimer h) ;;;
    (* 2. Stop HTTP server *)
    let* srv := read httpServer in
    (if srv then emit ServerClose else skip) ;;;
    (* 3. Terminate Claude process *)
    let* cp := read claudeProcess in
    let* childTask :=
      match cp with
      | Some p =>
          let* k := child_killed p in
          if k then ret None
          else
            let* forceKillTimer := setTimeout (ForceKill p) CONFIG.SIGKILL_DELAY_MS in
            kill p SIGTERM ;;;
            ret (Some (p, forceKillTimer))
      | None => ret None
      end in
    put_cleanup (Some (mkCleanup srv childTask exitCode reason)) ;;;
    (* Fallback timeout for cleanup *)
    (let* _ := setTimeout (CleanupTimeout exitCode reason)
                 CONFIG.GRACEFUL_SHUTDOWN_TIMEOUT_MS in skip) ;;;
    allSettled.

(** The [forceKillTimer] callback of [gracefulShutdown]. *)
Definition forceKillCallback : M unit :=
  let* cp := read claudeProcess in
  match cp with
  | Some p =>
      let* k := child_killed p in
      (if k then skip else kill p SIGKILL) ;;;
      resolveChild ;;; allSettled
  | None => skip
  end.

(** The ['exit'] listener that [gracefulShutdown] adds to the child. *)
Definition shutdownExitListener (forceKillTimer : nat) : M unit :=
  clearTimer (Some forceKillTimer) ;;; resolveChild ;;; allSettled.

(** The callback of the fallback timeout. *)
Definition cleanupTimeoutCallback (exitCode : Z) (reason : jsstring) : M unit :=
  finalExit exitCode reason.

(** ** CLAUDE CLI PROCESS MANAGEMENT *)

Definition spawnClaudeProcess : M unit :=
  let* sd := read shuttingDown in
  if sd then skip
  else
    let* p := spawn in
    write (set_claudeProcess (Some p)) ;;;
    (* Reset stream monitoring state *)
    let* now := Date_now in
    write (set_lastOutputTs now) ;;;
    write (set_streamActive true).

(** The two ['data'] listeners of [setupStreamMonitoring]; [output] is
    [data.toString()]. *)
Definition onStdoutData (output : jsstring) : M unit :=
  let* now := Date_now in
  write (set_lastOutputTs now) ;;;
  write (set_lastOutputLine (slice_last 100 (trim output))) ;;;
  write (set_streamActive true).

Definition onStderrData (output : jsstring) : M unit :=
  let* now := Date_now in
  write (set_lastOutputTs now) ;;;
  write (set_lastOutputLine (slice_last 100 (trim output))) ;;;
  write (set_streamActive true).

(** ** STREAM HANG DETECTION & RESTART LOGIC *)

Definition startHangDetection : M unit :=
  let* h := setInterval HangCheck CONFIG.HANG_CHECK_INTERVAL_MS in
  write (set_hangDetectionInterval (Some h)).

Definition killHangingProcess : M unit :=
  let* cp := read claudeProcess in
  match cp with
  | None => skip
  | Some p =>
      let* k := child_killed p in
      if k then skip
      else
        kill p SIGTERM ;;;
        let* _ := setTimeout (HangSigkill p) CONFIG.SIGKILL_DELAY_MS in skip
  end.

(** The [setTimeout] callback of [killHangingProcess]. *)
Definition hangSigkillCallback : M unit :=
  let* cp := read claudeProcess in
  match cp with
  | None => skip
  | Some p =>
      let* k := child_killed p in
      if k then skip else kill p SIGKILL
  end.

(** The [setInterval] callback of [startHangDetection]. *)
Definition hangCheck : M unit :=
  let* sd := read shuttingDown in
  if sd then
    let* h := read hangDetectionInterval in clearTimer h
  else
    let* cp := read claudeProcess in
    match cp with
    | None => skip
    | Some p =>
        let* k := child_killed p in
        if k then skip
        else
          let* currentTime := Date_now in
          let* last := read lastOutputTs in
          let silenceDuration := currentTime - last in
          if silenceDuration >? CONFIG.STREAM_TIMEOUT_MS then
            killHangingProcess ;;;
            let* h := read hangDetectionInterval in clearTimer h
          else skip
    end.

Definition canAttemptRestart : M bool :=
  let* now := Date_now in
  let* count := read restartCount in
  if count >=? CONFIG.MAX_RESTARTS then ret false
  else
    let* stamps := read restartTimestamps in
    let recentRestarts :=
      List.filter (fun timestamp => now - timestamp <? CONFIG.RESTART_WINDOW_MS) stamps in
    if Z.of_nat (length recentRestarts) >=? CONFIG.MAX_RESTARTS then ret false
    else ret true.

(** The two statements under [// Record restart attempt]:
    [restartCount++] and [restartTimestamps.push(Date.now())]. *)
Definition recordRestartAttempt : M unit :=
  (let* count := read restartCount in write (set_restartCount (count + 1))) ;;;
  (let* now := Date_now in
   let* stamps := read restartTimestamps in
   write (set_restartTimestamps (stamps ++ [now]))).

(** The [setTimeout] callback of [scheduleRestart]. *)
Definition restartCallback : M unit :=
  let* sd := read shuttingDown in
  if sd then skip
  else
    recordRestartAttempt ;;;
    spawnClaudeProcess ;;;
    startHangDetection.

Definition scheduleRestart : M unit :=
  let* _ := setTimeout RestartAttempt CONFIG.RESTART_DELAY_MS in skip.

Definition handleClaudeFailure : M unit :=
  let* sd := read shuttingDown in
  if sd then skip
  else
    let* ok := canAttemptRestart in
    if ok then scheduleRestart
    else
      let* count := read restartCount in
      gracefulShutdown 1
        (js "Claude failed after " ++ number_to_string count ++ js " restarts").

(** The ['exit'] and ['error'] listeners of [setupProcessHandlers].  [code]
    is [null] when the child was terminated by a signal. *)
Definition onExit (code : option Z) : M unit :=
  write (set_streamActive false) ;;;
  let* sd := read shuttingDown in
  if sd then skip
  else
    match code with
    | Some 0 => gracefulShutdown 0 (js "Claude completed successfully")
    | _ => handleClaudeFailure
    end.

Definition onError : M unit := handleClaudeFailure.

(** ** SUPERVISOR INITIALIZATION *)

(** [initializeSupervisor] up to its [await]: the two validations, then
    [startHealthServer()], which creates the server and starts listening. *)
Definition initializeSupervisor : M unit :=
  let* sid := read sessionId in
  if negb (truthy sid) || jsstring_eqb sid (js "unknown") then
    process_exit 1 None
  else
    let* cmd := read claudeCommand in
    if negb (truthy cmd) then process_exit 1 None
    else
      write (set_httpServer true) ;;;
      fun w => (tt, set_initPending true w).

(** The rest of the [try] block, run when the server is listening. *)
Definition initializeSupervisor_resume : M unit :=
  startHangDetection ;;; spawnClaudeProcess.

(** The [catch] block, run when [startHealthServer()] rejects. *)
Definition initializeSupervisor_catch : M unit := process_exit 1 None.

(** The world at the first [await]: module load, then the synchronous part
    of [initializeSupervisor]. *)
Definition boot (env_session arg : option jsstring) (now : Z) : World :=
  exec initializeSupervisor
    (mkWorld (initialState env_session arg now) now [] ∅ 0%nat false None [] None).

(** ** PROCESS SIGNAL HANDLERS *)

Inductive ProcessSignal := PSIGTERM | PSIGINT.

Definition onProcessSignal (s : ProcessSignal) : M unit :=
  match s with
  | PSIGTERM => gracefulShutdown 0 (js "SIGTERM received")
  | PSIGINT => gracefulShutdown 0 (js "SIGINT received")
  end.

(** [message] is [error.message]. *)
Definition onUncaughtException (message : jsstring) : M unit :=
  gracefulShutdown 1 (js "Uncaught exception: " ++ message).

(** [reason] is the rejection value converted to a string. *)
Definition onUnhandledRejection (reason : jsstring) : M unit :=
  gracefulShutdown 1 (js "Unhandled rejection: " ++ reason).

(** ** HTTP HEALTH SERVER *)

(** The object that [GET /health] serialises. *)
Record HealthData := mkHealthData {
  h_pid : option nat;
  h_running : bool;
  h_uptime : Z;
  h_startTime : Z;
  h_lastOutputTs : Z;
  h_lastOutputLine : jsstring;
  h_streamActive : bool;
  h_silenceDuration : Z;
  h_streamTimeoutMs : Z;
  h_restartCount : Z;
  h_maxRestarts : Z;
  h_restartHistory : list Z;
  h_sessionId : jsstring;
  h_claudeCommand : jsstring;
  h_preInstalled : bool;
  h_version : jsstring;
  h_configuredFor : jsstring
}.

(** The object that [GET /debug] serialises, without its [config] and
    [environment] members, which do not come from the supervisor state.
    Of the child it keeps the two members that the child objects of this
    development have. *)
Record DebugData := mkDebugData {
  d_startTime : Z;
  d_lastOutputTs : Z;
  d_lastOutputLine : jsstring;
  d_streamActive : bool;
  d_restartCount : Z;
  d_restartTimestamps : list Z;
  d_sessionId : jsstring;
  d_claudeCommand : jsstring;
  d_shuttingDown : bool;
  d_exitCode : option Z;
  d_hangDetectionActive : bool;
  d_claudeProcess : option (option nat * bool)  (* pid, killed *)
}.

Inductive Response :=
| MethodNotAllowed     (* 405, Allow: GET *)
| HealthOk (data : HealthData)   (* 200 *)
| DebugOk (data : DebugData)     (* 200 *)
| NotFound.            (* 404 *)

Definition statusCode (r : Response) : Z :=
  match r with
  | MethodNotAllowed => 405
  | HealthOk _ | DebugOk _ => 200
  | NotFound => 404
  end.

(** [child.pid].  The child objects of this development always have one,
    so that [pid || null] is the pid. *)
Definition child_pid (p : nat) : M (option nat) :=
  fun w => (match children w !! p with
            | Some c => Some (pid c)
            | None => None
            end, w).

(** [supervisorState.claudeProcess?.pid || null] *)
Definition childPid : M (option nat) :=
  let* cp := read claudeProcess in
  match cp with
  | Some p => child_pid p
  | None => ret None
  end.

(** [supervisorState.claudeProcess && !supervisorState.claudeProcess.killed] *)
Definition childNotKilled : M bool :=
  let* cp := read claudeProcess in
  match cp with
  | Some p => let* k := child_killed p in ret (negb k)
  | None => ret false
  end.

(** The response of [handleHealthRequest] to a request with method
    [method] whose URL has the path [pathname]. *)
Definition healthResponse (method pathname : jsstring) : M Response :=
  if negb (jsstring_eqb method (js "GET")) then ret MethodNotAllowed
  else if jsstring_eqb pathname (js "/health") then
    let* currentTime := Date_now in
    let* last := read lastOutputTs in
    let* start := read startTime in
    let silenceDuration := currentTime - last in
    let uptime := currentTime - start in
    let* pid := childPid in
    let* running := childNotKilled in
    let* line := read lastOutputLine in
    let* active := read streamActive in
    let* count := read restartCount in
    let* history := read restartTimestamps in
    let* sid := read sessionId in
    let* cmd := read claudeCommand in
    ret (HealthOk
           {| h_pid := pid;
              h_running := running;
              h_uptime := uptime;
              h_startTime := start;
              h_lastOutputTs := last;
              h_lastOutputLine := line;
              h_streamActive := active;
              h_silenceDuration := silenceDuration;
              h_streamTimeoutMs := CONFIG.STREAM_TIMEOUT_MS;
              h_restartCount := count;
              h_maxRestarts := CONFIG.MAX_RESTARTS;
              h_restartHistory := history;
              h_sessionId := sid;
              h_claudeCommand := cmd;
              h_preInstalled := true;
              h_version := js "1.0.0";
              h_configuredFor := js "fire-and-forget-execution" |})
  else if jsstring_eqb pathname (js "/debug") then
    let* start := read startTime in
    let* last := read lastOutputTs in
    let* line := read lastOutputLine in
    let* active := read streamActive in
    let* count := read restartCount in
    let* stamps := read restartTimestamps in
    let* sid := read sessionId in
    let* cmd := read claudeCommand in
    let* sd := read shuttingDown in
    let* code := read exitCode in
    let* h := read hangDetectionInterval in
    let* cp := read claudeProcess in
    let* child :=
      match cp with
      | Some p =>
          let* pid := child_pid p in
          let* k := child_killed p in
          ret (Some (pid, k))
      | None => ret None
      end in
    ret (DebugOk
           {| d_startTime := start;
              d_lastOutputTs := last;
              d_lastOutputLine := line;
              d_streamActive := active;
              d_restartCount := count;
              d_restartTimestamps := stamps;
              d_sessionId := sid;
              d_claudeCommand := cmd;
              d_shuttingDown := sd;
              d_exitCode := code;
              d_hangDetectionActive := bool_decide (is_Some h);
              d_claudeProcess := child |})
  else ret NotFound.

(** What [url.parse(req.url, true)], the first statement of
    [handleHealthRequest], makes of the request target: it throws (a
    [URIError] when the target has an auth part that cannot be decoded), or
    it yields a pathname.  A target without a path, whose pathname is
    [null], is answered as any pathname other than the two endpoints. *)
Inductive UrlParse :=
| UrlThrows (message : jsstring)
| UrlPathname (pathname : jsstring).

Record Request := mkRequest { req_method : jsstring; req_url : UrlParse }.

(** [handleHealthRequest(req, res)]: the message of the exception that
    [url.parse] throws, which nothing in the handler catches, or the
    response. *)
Definition handleHealthRequest (req : Request) : M (jsstring + Response) :=
  match req_url req with
  | UrlThrows message => ret (inl message)
  | UrlPathname pathname =>
      let* response := healthResponse (req_method req) pathname in
      ret (inr response)
  end.

(** ** The event loop *)

Inductive Channel := Stdout | Stderr.

Inductive Event :=
| EvListening
| EvListenError
| EvData (p : nat) (ch : Channel) (output : jsstring)
| EvChildExit (p : nat) (code : option Z)
| EvChildError (p : nat)
| EvTimer (id : nat)
| EvServerClosed
| EvProcessSignal (s : ProcessSignal)
| EvUncaughtException (message : jsstring)
| EvUnhandledRejection (reason : jsstring)
| EvHealthRequest (req : Request).

Definition runTask (t : Task) : M unit :=
  match t with
  | HangCheck => hangCheck
  | HangSigkill _ => hangSigkillCallback
  | RestartAttempt => restartCallback
  | ForceKill _ => forceKillCallback
  | CleanupTimeout code reason => cleanupTimeoutCallback code reason
  end.

(** A timer that fires: a timeout is consumed, an interval is armed again
    before its callback runs (the callback may clear it). *)
Definition fireTimer (id : nat) : M unit :=
  fun w => match timers w !! id with
           | Some t =>
               let ts := match period t with
                         | Some d => <[id := mkTimer (task t) (clock w + d) (period t)]> (timers w)
                         | None => delete id (timers w)
                         end in
               runTask (task t) (set_timers ts w)
           | None => (tt, w)
           end.

(** The operating-system process of child [p] is gone. *)
Definition reap (p : nat) : M unit :=
  fun w => match children w !! p with
           | Some c => (tt, set_children (<[p := mkChild (pid c) (killed c) false]> (children w)) w)
           | None => (tt, w)
           end.

(** The ['exit'] event of child [p] calls the listeners registered when the
    event is emitted: the one of [setupProcessHandlers] and, when a
    shutdown is waiting for this child, the one of [gracefulShutdown]. *)
Definition emitExit (p : nat) (code : option Z) : M unit :=
  let* c := get_cleanup in
  reap p ;;;
  onExit code ;;;
  match c with
  | Some c =>
      match childPending c with
      | Some (q, forceKillTimer) =>
          if bool_decide (q = p) then shutdownExitListener forceKillTimer else skip
      | None => skip
      end
  | None => skip
  end.

Definition handler (ev : Event) : M unit :=
  match ev with
  | EvListening =>
      (fun w => (tt, set_initPending false w)) ;;; initializeSupervisor_resume
  | EvListenError =>
      (fun w => (tt, set_initPending false w)) ;;; initializeSupervisor_catch
  | EvData _ Stdout output => onStdoutData output
  | EvData _ Stderr output => onStderrData output
  | EvChildExit p code => emitExit p code
  | EvChildError _ => onError
  | EvTimer id => fireTimer id
  | EvServerClosed => resolveHttp ;;; allSettled
  | EvProcessSignal s => onProcessSignal s
  | EvUncaughtException message => onUncaughtException message
  | EvUnhandledRejection reason => onUnhandledRejection reason
  | EvHealthRequest req =>
      (* an exception thrown by a listener reaches the process as
         ['uncaughtException'] *)
      let* outcome := handleHealthRequest req in
      match outcome with
      | inl message => onUncaughtException message
      | inr _ => skip
      end
  end.

(** One reaction of the event loop at time [now]. *)
Definition dispatch (ev : Event) (now : Z) (w : World) : World :=
  exec (handler ev) (set_clock now w).

(** When the runtime can deliver [ev] at time [now]: the process has not
    exited, the clock does not run backwards, and the source of the event
    exists (a timer fires no earlier than it is due, a child exits once). *)
Definition enabled (ev : Event) (now : Z) (w : World) : bool :=
  bool_decide (exited w = None) && (clock w <=? now) &&
  match ev with
  | EvListening | EvListenError => initPending w
  | EvData p _ _ | EvChildError p => bool_decide (p < length (children w))%nat
  | EvChildExit p _ =>
      match children w !! p with Some c => running c | None => false end
  | EvTimer id =>
      match timers w !! id with Some t => due t <=? now | None => false end
  | EvServerClosed =>
      match cleanup w with Some c => httpPending c | None => false end
  | EvHealthRequest _ => httpServer (st w) && negb (initPending w)
  | _ => true
  end.

Inductive reachable : World -> Prop :=
| reachable_boot env_session arg now :
    reachable (boot env_session arg now)
| reachable_step w ev now :
    reachable w -> enabled ev now w = true -> reachable (dispatch ev now w).

(** Delivering a script of timed events, and the same with the check that
    each event can be delivered: [None] when one cannot. *)
Definition play (w : World) (script : list (Event * Z)) : World :=
  fold_left (fun w e => dispatch (fst e) (snd e) w) script w.

Fixpoint run (w : World) (script : list (Event * Z)) : option World :=
  match script with
  | [] => Some w
  | (ev, now) :: script' =>
      if enabled ev now w then run (dispatch ev now w) script' else None
  end.

(** ** Vocabulary of the properties *)

(** The number of entries of a restart history that lie within the restart
    window of [now]. *)
Fixpoint countRecent (now : Z) (stamps : list Z) : Z :=
  match stamps with
  | [] => 0
  | t :: rest =>
      (if decide (now - t < CONFIG.RESTART_WINDOW_MS) then 1 else 0)
      + countRecent now rest
  end.

(** A burst of output: each chunk with the child and channel it comes from
    and the time at which its listener runs. *)
Definition deliverOutputs (w : World) (chunks : list (nat * Channel * jsstring * Z))
  : World :=
  fold_left (fun w c => match c with
                        | (p, ch, output, now) => dispatch (EvData p ch output) now w
                        end) chunks w.

(** The hang-detection intervals that are armed. *)
Definition isHangCheck (t : Timer) : bool :=
  match task t with HangCheck => true | _ => false end.

Definition hangDetectors (w : World) : list nat :=
  List.map fst (List.filter (fun e => isHangCheck (snd e)) (map_to_list (timers w))).

(** What the process can exit with: the status and the reason handed to
    [finalExit], no reason for the direct [process.exit(1)] of
    [initializeSupervisor]. *)
Inductive ExitCause : Z -> option jsstring -> Prop :=
| exit_completed :
    ExitCause 0 (Some (js "Claude completed successfully"))
| exit_sigterm : ExitCause 0 (Some (js "SIGTERM received"))
| exit_sigint : ExitCause 0 (Some (js "SIGINT received"))
| exit_restarts_exhausted n :
    ExitCause 1 (Some (js "Claude failed after " ++ number_to_string n ++ js " restarts"))
| exit_uncaught message :
    ExitCause 1 (Some (js "Uncaught exception: " ++ message))
| exit_unhandled reason :
    ExitCause 1 (Some (js "Unhandled rejection: " ++ reason))
| exit_initialization : ExitCause 1 None.

(** The two validations of [initializeSupervisor] reject the session
    identifier or the command. *)
Definition startupInvalid (env_session arg : option jsstring) : bool :=
  let sid := or_default env_session (js "unknown") in
  let cmd := or_default arg [] in
  negb (truthy sid) || jsstring_eqb sid (js "unknown") || negb (truthy cmd).

(** The exit that an event asks for: the status and reason of the
    [gracefulShutdown] call that its listener makes, and for the failure of
    the status server the direct [process.exit(1)]. *)
Inductive Requests : Event -> Z -> option jsstring -> Prop :=
| requests_completed p :
    Requests (EvChildExit p (Some 0)) 0 (Some (js "Claude completed successfully"))
| requests_failed_exit p code n :
    code <> Some 0 ->
    Requests (EvChildExit p code) 1
      (Some (js "Claude failed after " ++ number_to_string n ++ js " restarts"))
| requests_failed_error p n :
    Requests (EvChildError p) 1
      (Some (js "Claude failed after " ++ number_to_string n ++ js " restarts"))
| requests_sigterm :
    Requests (EvProcessSignal PSIGTERM) 0 (Some (js "SIGTERM received"))
| requests_sigint :
    Requests (EvProcessSignal PSIGINT) 0 (Some (js "SIGINT received"))
| requests_uncaught message :
    Requests (EvUncaughtException message) 1
      (Some (js "Uncaught exception: " ++ message))
| requests_unhandled reason :
    Requests (EvUnhandledRejection reason) 1
      (Some (js "Unhandled rejection: " ++ reason))
| requests_bad_url req message :
    req_url req = UrlThrows message ->
    Requests (EvHealthRequest req) 1 (Some (js "Uncaught exception: " ++ message))
| requests_listen_error : Requests EvListenError 1 None.

(** An exit with status [c] and reason [r] has a cause in the run: the
    startup validation failed, or an event of [script] asks for it. *)
Definition Caused (env_session arg : option jsstring) (script : list (Event * Z))
    (c : Z) (r : option jsstring) : Prop :=
  (startupInvalid env_session arg = true /\ c = 1 /\ r = None) \/
  exists ev now, In (ev, now) script /\ Requests ev c r.

(** ** Scenarios *)

Module Scenario.

(** A supervisor started with a session identifier and a command, whose
    status server is listening and whose first child is running. *)
Definition started : World :=
  dispatch EvListening 1010
    (boot (Some (js "session-1")) (Some (js "What is 2+2?")) 1000).

(** A termination signal arrives while the first child runs. *)
Definition signalled : World := dispatch (EvProcessSignal PSIGTERM) 2000 started.

(** The first child fails without a hang and is restarted. *)
Definition plain_failure : list (Event * Z) :=
  [ (EvChildExit 0%nat (Some 1), 2000); (EvTimer 1%nat, 4000) ].

(** The first child prints a line, fails and is restarted. *)
Definition line_then_failure : list (Event * Z) :=
  [ (EvData 0%nat Stdout (js "hello"), 1500);
    (EvChildExit 0%nat (Some 1), 2000);
    (EvTimer 1%nat, 4000) ].

(** The first child hangs and is sent SIGTERM; it exits, the second child
    is spawned and completes at once, which starts the shutdown while the
    SIGKILL timeout of the hang is still pending. *)
Definition hang_then_success : list (Event * Z) :=
  [ (EvTimer 0%nat, 302000);
    (EvChildExit 0%nat None, 302100);
    (EvTimer 2%nat, 304100);
    (EvChildExit 1%nat (Some 0), 305000) ].

(** A termination signal, then an uncaught exception, then the end of the
    cleanup. *)
Definition signal_then_fault : list (Event * Z) :=
  [ (EvProcessSignal PSIGTERM, 2000);
    (EvUncaughtException (js "boom"), 2001);
    (EvServerClosed, 2002);
    (EvChildExit 0%nat None, 2003) ].

End Scenario.

(** ** Vocabulary of the invariants *)

Definition isCleanupTimeout (t : Task) : bool :=
  match t with CleanupTimeout _ _ => true | _ => false end.

(** A property of worlds that a callback maintains. *)
Definition preserves (P : World -> Prop) {A} (m : M A) : Prop :=
  forall w, P w -> P (exec m w).

(** What the invariants below look at: a callback that leaves this view of
    the world alone preserves all of them. *)
Definition view (w : World) :=
  (shuttingDown (st w), exitCode (st w), restartCount (st w),
   restartTimestamps (st w), timers w, cleanup w, exited w, initPending w).

Definition inert {A} (m : M A) : Prop := forall w, view (exec m w) = view w.

Definition ViewInv (P : World -> Prop) : Prop :=
  forall w w', view w' = view w -> P w -> P w'.

(** Callbacks that touch neither [supervisorState] nor the progress of the
    initialization, and the invariants that look at nothing else. *)
Definition keeps {A} (m : M A) : Prop :=
  forall w, st (exec m w) = st w /\ initPending (exec m w) = initPending w.

Definition StateInv (P : World -> Prop) : Prop :=
  forall w w', st w' = st w -> initPending w' = initPending w -> P w -> P w'.

(** The restart count is the length of the restart history. *)
Definition CountInv (w : World) : Prop :=
  restartCount (st w) = Z.of_nat (length (restartTimestamps (st w))).

(** The latch is set. *)
Definition Latched (w : World) : Prop := shuttingDown (st w) = true.

(** The initialization is not waiting for the status server. *)
Definition Ready (w : World) : Prop := initPending w = false.

(** No shutdown timeout is pending and no cleanup promise exists, unless
    the latch is set. *)
Definition noCleanupTimeout (ts : gmap nat Timer) : Prop :=
  forall id t, ts !! id = Some t -> isCleanupTimeout (task t) = false.

Definition Quiet (w : World) : Prop :=
  Latched w \/ (noCleanupTimeout (timers w) /\ cleanup w = None).

(** What a shutdown request commits the supervisor to: the latch and the
    exit status; [ip] tells whether the initialization is still waiting
    for the status server. *)
Definition Committed (c : Z) (ip : bool) (w : World) : Prop :=
  shuttingDown (st w) = true /\ exitCode (st w) = Some c /\ initPending w = ip.

(** Every exit that has happened or is queued in [w] (the [then] callback
    of the cleanup promises, a pending shutdown timeout) carries a status
    and reason allowed by [Ok]. *)
Definition ExitDiscipline (Ok : Z -> option jsstring -> Prop) (w : World) : Prop :=
  (forall c r, exited w = Some (c, r) -> Ok c r) /\
  (forall cl, cleanup w = Some cl -> Ok (cleanupCode cl) (Some (cleanupReason cl))) /\
  (forall id t c r, timers w !! id = Some t -> task t = CleanupTimeout c r ->
     Ok c (Some r)).

(** The side condition of an invariant that has none. *)
Definition Always (w : World) : Prop := True.

(** The exits that a first shutdown request [(c1, r1)] allows. *)
Definition Decided (c1 : Z) (r1 : jsstring) (c : Z) (r : option jsstring) : Prop :=
  c = c1 /\ r = Some r1.

Definition FirstWins (c1 : Z) (r1 : jsstring) (w : World) : Prop :=
  Committed c1 false w /\ ExitDiscipline (Decided c1 r1) w.

(** A supervisor that refused to start: it has exited with status 1, has
    spawned nothing, and no event will ever be handled. *)
Definition refusedToStart (w : World) : Prop :=
  exited w = Some (1, None) /\ children w = [] /\ trace w = [] /\
  forall ev now, enabled ev now w = false.

(** The world [w] with its latch forced to [b]. *)
Definition latch (b : bool) (w : World) : World :=
  set_st (set_shuttingDown b (st w)) w.

(** A callback that never reads [shuttingDown]: it runs the same whatever
    the latch, and leaves the latch as it found it. *)
Definition oblivious {A} (m : M A) : Prop :=
  forall b w, m (latch b w) = (fst (m w), latch b (snd (m w))).

(** ** STRUCTURED LOGGING *)

Module Logger.

(** The methods [debug], [info], [warn] and [error] are the only callers
    of [log], and each passes its own name as the level. *)
Inductive Level := Debug | Info | Warn | Error.

Definition levelName (level : Level) : jsstring :=
  match level with
  | Debug => js "debug"
  | Info => js "info"
  | Warn => js "warn"
  | Error => js "error"
  end.

(** [this.logLevels], an object used as a map from level names to ranks. *)
Definition logLevels : gmap jsstring Z :=
  <[js "debug" := 0]> (<[js "info" := 1]> (<[js "warn" := 2]> (<[js "error" := 3]> ∅))).

(** The constructor: [process.env.LOG_LEVEL || 'info']. *)
Definition logLevel (env_log_level : option jsstring) : jsstring :=
  or_default env_log_level (js "info").

(** [shouldLog(level)] of a logger whose configured level is [threshold]:
    [this.logLevels[level] >= this.logLevels[this.logLevel]].  The level
    has a rank; the configured name is any string, and one outside the four
    yields [undefined] or an inherited member of [Object.prototype], none
    of which converts to a number, so that the comparison is false. *)
Definition shouldLog (threshold : jsstring) (level : Level) : bool :=
  match logLevels !! levelName level, logLevels !! threshold with
  | Some rank, Some least => rank >=? least
  | _, _ => false
  end.

End Logger.

(** ** Vocabulary of the further properties *)

(** The three fields that only the object literal writes. *)
Definition Identity (sid cmd : jsstring) (start : Z) (w : World) : Prop :=
  sessionId (st w) = sid /\ claudeCommand (st w) = cmd /\ startTime (st w) = start.

(** The readings of [Date.now()] never step back: the one at module load
    is [t0], and each reaction of [script] reads at least what the reaction
    before it read. *)
Definition steady (t0 : Z) (script : list (Event * Z)) : Prop :=
  Sorted Z.le (t0 :: List.map snd script).

(** While a shutdown is in progress the current child cannot be signalled
    any more: its [killed] flag is set or its process is gone. *)
Definition Spent (w : World) : Prop :=
  shuttingDown (st w) = true ->
  forall p c, claudeProcess (st w) = Some p -> children w !! p = Some c ->
    killed c = true \/ running c = false.

(** The latch is set and the exit status is [code]. *)
Definition Sealed (code : option Z) (w : World) : Prop :=
  shuttingDown (st w) = true /\ exitCode (st w) = code.

(** The snippet has at most 100 code units and does not end with a code
    unit that [trim] removes. *)
Definition endsClean (s : jsstring) : Prop :=
  match rev s with
  | [] => True
  | c :: _ => is_trimmed_unit c = false
  end.

Definition SnippetInv (w : World) : Prop :=
  (length (lastOutputLine (st w)) <= 100)%nat /\ endsClean (lastOutputLine (st w)).

(** The clock readings kept in the state are in order: [floor] is not
    after the last output, which is not after the current time, and the
    restart history is ascending and not after the current time. *)
Definition Timely (floor : Z) (w : World) : Prop :=
  floor <= lastOutputTs (st w) /\
  lastOutputTs (st w) <= clock w /\
  Forall (fun t => t <= clock w) (restartTimestamps (st w)) /\
  Sorted Z.le (restartTimestamps (st w)).

(** The current child is [p], its process is gone and it was never sent a
    signal. *)
Definition ExitedUnsignalled (p : nat) (w : World) : Prop :=
  claudeProcess (st w) = Some p /\
  exists c, children w !! p = Some c /\ killed c = false /\ running c = false.

(** A [kill()] on child [p] recorded in [tr] delivered its signal. *)
Definition delivered (p : nat) (tr : list Effect) : Prop :=
  exists s, In (KillCall p s true) tr.

(** No [kill('SIGKILL')] recorded in [tr] comes after a [kill()] on the
    same child that delivered its signal. *)
Definition noEscalation (tr : list Effect) : Prop :=
  forall before p d after,
    tr = before ++ KillCall p SIGKILL d :: after -> ~ delivered p before.

Definition Orderly (w : World) : Prop :=
  noEscalation (trace w) /\
  forall p, delivered p (trace w) ->
            exists c, children w !! p = Some c /\ killed c = true.

(** [claudeProcess] is [null] while no child was spawned and the newest
    child object afterwards. *)
Definition newestChild (w : World) : option nat :=
  match length (children w) with
  | O => None
  | S n => Some n
  end.

Definition Current (w : World) : Prop := claudeProcess (st w) = newestChild w.

(** The handle kept in [hangDetectionInterval] was returned by an earlier
    [setInterval]. *)
Definition Bounded (w : World) : Prop :=
  forall h, hangDetectionInterval (st w) = Some h -> (h < nextTimer w)%nat.

(** The shutdown timeout of the request with status [c] and reason [r]
    made at time [T] is pending unless the process has exited, and no
    handle that the supervisor keeps for cancelling a timer refers to it. *)
Definition ArmedFor (c : Z) (r : jsstring) (T : Z) (w : World) : Prop :=
  exited w = None ->
  exists id t,
    timers w !! id = Some t /\
    task t = CleanupTimeout c r /\
    due t = T + CONFIG.GRACEFUL_SHUTDOWN_TIMEOUT_MS /\
    (id < nextTimer w)%nat /\
    hangDetectionInterval (st w) <> Some id /\
    (forall cl p h, cleanup w = Some cl -> childPending cl = Some (p, h) -> h <> id).

(** The supervisor is shutting down on the request [(c, r)] made at [T]. *)
Definition ShuttingDownFor (c : Z) (r : jsstring) (T : Z) (w : World) : Prop :=
  shuttingDown (st w) = true /\ exitCode (st w) = Some c /\
  Bounded w /\ ArmedFor c r T w.

(** Every restart that is counted has spawned a child, and the children
    that are not restarts are the first one, spawned when the status server
    is listening. *)
Definition SpawnInv (w : World) : Prop :=
  restartCount (st w) <= Z.of_nat (length (children w)) /\
  Z.of_nat (length (children w))
  <= restartCount (st w) + (if initPending w then 0 else 1).

(** ** The test suite: results and report *)

Module TestSuite.

Record TestResult := mkTestResult {
  name : jsstring;
  passed : bool;
  error : option jsstring;
  duration : Z;
  timestamp : Z
}.

(** [createTestResult(name, passed, error, duration)]; [error] is the
    message of the error object, [now] the reading of [Date.now()]. *)
Definition createTestResult (name : jsstring) (passed : bool)
    (error : option jsstring) (duration now : Z) : TestResult :=
  mkTestResult name passed error duration now.

(** The validation checklist of [generateTestReport]: a title and the name
    of the test that stands for it. *)
Definition validations : list (jsstring * jsstring) :=
  [ (js "Process Lifecycle", js "Claude Process Spawning");
    (js "HTTP Server", js "Health Server Startup");
    (js "Stream Monitoring", js "Stream Activity Monitoring");
    (js "Graceful Shutdown", js "Graceful Shutdown");
    (js "Environment Validation", js "Environment Validation");
    (js "Successful Execution", js "Successful Command Execution") ].

(** What [generateTestReport] computes: the three counts, the checklist
    lines ([true] for PASS) and the status given to [process.exit]. *)
Record Report := mkReport {
  passedCount : nat;
  failedCount : nat;
  total : nat;
  checklist : list (jsstring * bool);
  overallSuccess : bool;
  exitStatus : Z
}.

Definition generateTestReport (testResults : list TestResult) : Report :=
  let passedCount := length (List.filter (fun r => passed r) testResults) in
  let failedCount := length (List.filter (fun r => negb (passed r)) testResults) in
  let total := length testResults in
  let checklist :=
    map (fun v =>
           let testResult :=
             List.find (fun r => jsstring_eqb (name r) (snd v)) testResults in
           (fst v, match testResult with
                   | Some r => passed r
                   | None => false
                   end))
        validations in
  let overallSuccess := Nat.eqb failedCount 0 in
  mkReport passedCount failedCount total checklist overallSuccess
    (if overallSuccess then 0 else 1).

End TestSuite.

(** * Properties *)

(** ** Restart policy *)

Lemma countRecent_filter now stamps :
  Z.of_nat (length (List.filter (fun t => now - t <? CONFIG.RESTART_WINDOW_MS) stamps))
  = countRecent now stamps.
Proof.
  induction stamps as [|t rest IH]; [reflexivity|].
  cbn [List.filter countRecent].
  destruct (decide (now - t < CONFIG.RESTART_WINDOW_MS)) as [Hlt|Hge].
  - apply Z.ltb_lt in Hlt. rewrite Hlt. cbn [length]. lia.
  - destruct (now - t <? CONFIG.RESTART_WINDOW_MS) eqn:E.
    + apply Z.ltb_lt in E. contradiction.
    + lia.
Qed.

Lemma canAttemptRestart_pure w : exec canAttemptRestart w = w.
Proof.
  unfold canAttemptRestart, exec, bind, read, Date_now, ret. cbn.
  destruct (restartCount (st w) >=? CONFIG.MAX_RESTARTS); cbn; [reflexivity|].
  match goal with |- context [if ?b then _ else _] => destruct b end; reflexivity.
Qed.

(** C1. Whatever the restart count, the restart history and the time,
    [canAttemptRestart] answers true exactly when the count is below
    [MAX_RESTARTS] and fewer than [MAX_RESTARTS] entries of the history lie
    within [RESTART_WINDOW_MS] of now; the call leaves the whole world, the
    supervisor state included, as it was. *)
Theorem canAttemptRestart_iff (w : World) :
  (eval canAttemptRestart w = true <->
     restartCount (st w) < CONFIG.MAX_RESTARTS /\
     countRecent (clock w) (restartTimestamps (st w)) < CONFIG.MAX_RESTARTS)
  /\ exec canAttemptRestart w = w.
Proof.
  unfold canAttemptRestart, eval, exec, bind, read, Date_now, ret. cbn.
  destruct (restartCount (st w) >=? CONFIG.MAX_RESTARTS) eqn:E1; cbn.
  - split; [|reflexivity]. split; [discriminate|]. lia.
  - rewrite countRecent_filter.
    destruct (countRecent (clock w) (restartTimestamps (st w)) >=? CONFIG.MAX_RESTARTS)
      eqn:E2; cbn.
    + split; [|reflexivity]. split; [discriminate|]. lia.
    + split; [|reflexivity]. split; [lia | reflexivity].
Qed.

(** ** Startup validation *)

Lemma refusedToStart_intro w :
  exited w = Some (1, None) -> children w = [] -> trace w = [] ->
  refusedToStart w.
Proof.
  intros He Hc Ht. repeat split; try assumption.
  intros ev now. unfold enabled. rewrite He. reflexivity.
Qed.

(** C10. Startup stops with status 1, before any spawn, when [SESSION_ID]
    is absent, when it is empty, and also when it is the string
    ['unknown'], the value that stands for an absent one. *)
Theorem unknown_session_rejected (arg : option jsstring) (now : Z) :
  refusedToStart (boot None arg now) /\
  refusedToStart (boot (Some []) arg now) /\
  refusedToStart (boot (Some (js "unknown")) arg now).
Proof.
  repeat split; try reflexivity;
    intros ev t; unfold enabled; reflexivity.
Qed.

(** ** Activity tracker *)

Lemma onStdoutData_tracker output w :
  let w' := exec (onStdoutData output) w in
  lastOutputTs (st w') = clock w /\
  lastOutputLine (st w') = slice_last 100 (trim output) /\
  streamActive (st w') = true.
Proof. repeat split. Qed.

Lemma channels_alike p output now w :
  dispatch (EvData p Stdout output) now w = dispatch (EvData p Stderr output) now w.
Proof. reflexivity. Qed.

Lemma slice_last_length n s : (length (slice_last n s) <= n)%nat.
Proof. unfold slice_last. rewrite length_drop. lia. Qed.

Lemma slice_last_suffix n s : exists front, s = front ++ slice_last n s.
Proof.
  exists (take (length s - n) s). unfold slice_last.
  symmetry. apply take_drop.
Qed.

(** C6, as the code has it. After any burst of output that ends with a
    chunk [output] handled at time [now], on whichever channel,
    [lastOutputTs] is [now], [streamActive] is true, and [lastOutputLine]
    is the last 100 code units, or all of them if there are fewer, of
    [output] with its leading and trailing white space removed; the two
    channels have the same effect. *)
Theorem output_burst_tracker
    (w : World) (chunks : list (nat * Channel * jsstring * Z))
    (p : nat) (ch : Channel) (output : jsstring) (now : Z) :
  let w' := deliverOutputs w (chunks ++ [(p, ch, output, now)]) in
  lastOutputTs (st w') = now /\
  lastOutputLine (st w') = slice_last 100 (trim output) /\
  (length (lastOutputLine (st w')) <= 100)%nat /\
  (exists front, trim output = front ++ lastOutputLine (st w')) /\
  streamActive (st w') = true /\
  dispatch (EvData p Stdout output) now w = dispatch (EvData p Stderr output) now w.
Proof.
  cbn zeta. unfold deliverOutputs. rewrite fold_left_app. cbn [fold_left].
  set (w1 := fold_left _ chunks w).
  assert (Hline : lastOutputLine (st (dispatch (EvData p ch output) now w1))
                  = slice_last 100 (trim output)) by (destruct ch; reflexivity).
  split; [destruct ch; reflexivity|].
  split; [exact Hline|].
  split; [rewrite Hline; apply slice_last_length|].
  split; [rewrite Hline; apply slice_last_suffix|].
  split; [destruct ch; reflexivity | apply channels_alike].
Qed.

(** C6, as claimed, fails on a chunk that ends with a line feed: the chunk
    is ["a\n"], its last 100 code units are the chunk itself, and the
    tracker keeps ["a"]. *)
Lemma output_snippet_is_trimmed :
  let chunk := [97; 10]%N in
  let w' := deliverOutputs Scenario.started [(0%nat, Stdout, chunk, 1500)] in
  enabled (EvData 0%nat Stdout chunk) 1500 Scenario.started = true /\
  slice_last 100 chunk = chunk /\
  lastOutputLine (st w') = [97]%N /\
  lastOutputLine (st w') <> slice_last 100 chunk.
Proof. cbn zeta. repeat split. discriminate. Qed.

(** C7, as the code has it. A call of [spawnClaudeProcess] while no
    shutdown is in progress installs a new child, sets [lastOutputTs] to
    the current time and [streamActive] to true, and leaves
    [lastOutputLine] as the previous child left it. *)
Theorem spawn_resets_clock_only (w : World) :
  shuttingDown (st w) = false ->
  let w' := exec spawnClaudeProcess w in
  claudeProcess (st w') = Some (length (children w)) /\
  children w' = children w ++ [mkChild (length (children w)) false true] /\
  lastOutputTs (st w') = clock w /\
  streamActive (st w') = true /\
  lastOutputLine (st w') = lastOutputLine (st w).
Proof.
  intros Hsd. unfold spawnClaudeProcess, exec, bind, read. cbn.
  rewrite Hsd. repeat split.
Qed.

Lemma spawn_resets_clock_only_witness :
  shuttingDown (st Scenario.started) = false /\
  lastOutputLine (st (exec spawnClaudeProcess Scenario.started))
  = lastOutputLine (st Scenario.started).
Proof.
  split; [reflexivity|].
  apply (spawn_resets_clock_only Scenario.started). reflexivity.
Defined.

(** C7, as claimed, fails when the first child has printed a line before
    it fails: after the restart the new child is installed and
    [lastOutputLine] still holds the line of the old one, not the empty
    string the state starts with. *)
Lemma snippet_survives_restart :
  exists w',
    run Scenario.started Scenario.line_then_failure = Some w' /\
    claudeProcess (st w') = Some 1%nat /\
    lastOutputTs (st w') = 4000 /\
    lastOutputLine (st w') = js "hello" /\
    lastOutputLine (st w') <> lastOutputLine (initialState None None 0).
Proof.
  eexists. split; [vm_compute; reflexivity|].
  repeat split. discriminate.
Qed.

(** ** Scripts and reachability *)

Lemma run_play w script w' : run w script = Some w' -> w' = play w script.
Proof.
  revert w. induction script as [|[ev now] script IH]; intros w H; cbn in *.
  - congruence.
  - destruct (enabled ev now w); [apply IH; exact H | discriminate].
Qed.

Lemma run_reachable w script w' :
  reachable w -> run w script = Some w' -> reachable w'.
Proof.
  revert w. induction script as [|[ev now] script IH]; intros w Hw H; cbn in H.
  - congruence.
  - destruct (enabled ev now w) eqn:E; [|discriminate].
    eapply IH; [|exact H]. apply reachable_step; assumption.
Qed.

Lemma started_reachable : reachable Scenario.started.
Proof. apply reachable_step; [apply reachable_boot | reflexivity]. Qed.

(** ** The shutdown latch *)

Lemma spawn_latched w : shuttingDown (st w) = true -> exec spawnClaudeProcess w = w.
Proof. intros H. unfold spawnClaudeProcess, exec, bind, read. cbn. rewrite H. reflexivity. Qed.

Lemma restart_latched w : shuttingDown (st w) = true -> exec restartCallback w = w.
Proof. intros H. unfold restartCallback, exec, bind, read. cbn. rewrite H. reflexivity. Qed.

Lemma hangCheck_latched w :
  shuttingDown (st w) = true ->
  exec hangCheck w = exec (clearTimer (hangDetectionInterval (st w))) w.
Proof. intros H. unfold hangCheck, exec, bind, read. cbn. rewrite H. reflexivity. Qed.

Lemma clearTimer_frame h w :
  let w' := exec (clearTimer h) w in
  st w' = st w /\ children w' = children w /\ trace w' = trace w /\
  cleanup w' = cleanup w /\ exited w' = exited w /\
  timers w' = match h with Some id => delete id (timers w) | None => timers w end.
Proof. destruct h; repeat split. Qed.

(** C2. Once [shuttingDown] is true, a call of [spawnClaudeProcess] and
    the callback of [scheduleRestart] change nothing at all, and a tick of
    the hang detector only cancels the stored interval: the supervisor
    state, the child processes and the record of spawns and signals stay as
    they are, so there is no new child, no change of the restart count or
    history and no kill. *)
Theorem latched_callbacks_are_inert (w : World) :
  shuttingDown (st w) = true ->
  exec spawnClaudeProcess w = w /\
  exec restartCallback w = w /\
  (let w' := exec hangCheck w in
   st w' = st w /\ children w' = children w /\ trace w' = trace w /\
   cleanup w' = cleanup w /\ exited w' = exited w /\
   timers w' = match hangDetectionInterval (st w) with
               | Some id => delete id (timers w)
               | None => timers w
               end).
Proof.
  intros H. split; [apply spawn_latched, H|].
  split; [apply restart_latched, H|].
  cbn zeta. rewrite (hangCheck_latched w H). apply clearTimer_frame.
Qed.

Lemma latched_callbacks_are_inert_witness :
  shuttingDown (st Scenario.signalled) = true /\
  exec spawnClaudeProcess Scenario.signalled = Scenario.signalled /\
  exec restartCallback Scenario.signalled = Scenario.signalled.
Proof.
  split; [reflexivity|].
  destruct (latched_callbacks_are_inert Scenario.signalled) as (H1 & H2 & _);
    [reflexivity|].
  split; assumption.
Defined.

(** ** Suspended actions *)

Lemma oblivious_bind {A B} (m : M A) (k : A -> M B) :
  oblivious m -> (forall a, oblivious (k a)) -> oblivious (bind m k).
Proof.
  intros Hm Hk b w. unfold bind. rewrite Hm.
  destruct (m w) as [a w1]. cbn. apply Hk.
Qed.

Lemma oblivious_ret {A} (a : A) : oblivious (ret a).
Proof. intros b w. reflexivity. Qed.

Lemma oblivious_read {A} (f : SupervisorState -> A) :
  (forall b s, f (set_shuttingDown b s) = f s) -> oblivious (read f).
Proof. intros Hf b w. unfold read, latch. cbn. rewrite Hf. reflexivity. Qed.

Lemma oblivious_killed p : oblivious (child_killed p).
Proof. intros b w. reflexivity. Qed.

Lemma oblivious_kill p s : oblivious (kill p s).
Proof.
  intros b w. unfold kill, latch. cbn.
  destruct (children w !! p) as [c|]; [|reflexivity].
  destruct (running c); reflexivity.
Qed.

Lemma oblivious_exit c r : oblivious (process_exit c r).
Proof.
  intros b w. unfold process_exit, latch. cbn. destruct (exited w); reflexivity.
Qed.

Lemma oblivious_get_cleanup : oblivious get_cleanup.
Proof. intros b w. reflexivity. Qed.

Lemma oblivious_put_cleanup c : oblivious (put_cleanup c).
Proof. intros b w. reflexivity. Qed.

Ltac oblivious_step :=
  match goal with
  | |- oblivious (bind _ _) => apply oblivious_bind; [|intros ?]
  | |- oblivious (ret _) => apply oblivious_ret
  | |- oblivious skip => apply oblivious_ret
  | |- oblivious (read _) => apply oblivious_read; reflexivity
  | |- oblivious (if ?b then _ else _) => destruct b
  | |- oblivious (match ?x with _ => _ end) => destruct x
  end.

Ltac oblivious :=
  repeat oblivious_step;
  auto using oblivious_killed, oblivious_kill, oblivious_exit,
    oblivious_get_cleanup, oblivious_put_cleanup.

Lemma hangSigkill_oblivious : oblivious hangSigkillCallback.
Proof. unfold hangSigkillCallback. oblivious. Qed.

Lemma forceKill_oblivious : oblivious forceKillCallback.
Proof.
  unfold forceKillCallback, resolveChild, allSettled, finalExit. oblivious.
Qed.

Lemma cleanupTimeout_oblivious c r : oblivious (cleanupTimeoutCallback c r).
Proof. unfold cleanupTimeoutCallback, finalExit. oblivious. Qed.

Lemma hangSigkill_kills w p c :
  claudeProcess (st w) = Some p -> children w !! p = Some c -> killed c = false ->
  trace (exec hangSigkillCallback w) = trace w ++ [KillCall p SIGKILL (running c)].
Proof.
  intros Hp Hc Hk.
  unfold hangSigkillCallback, exec, bind, read, child_killed, kill. cbn.
  rewrite Hp. cbn. rewrite Hc. cbn. rewrite Hk. cbn. rewrite Hc.
  destruct (running c); reflexivity.
Qed.

Lemma hangSigkill_spares w p c :
  claudeProcess (st w) = Some p -> children w !! p = Some c -> killed c = true ->
  exec hangSigkillCallback w = w.
Proof.
  intros Hp Hc Hk.
  unfold hangSigkillCallback, exec, bind, read, child_killed. cbn.
  rewrite Hp. cbn. rewrite Hc. cbn. rewrite Hk. reflexivity.
Qed.

Lemma cleanupTimeout_exits code reason w :
  exited w = None ->
  exited (exec (cleanupTimeoutCallback code reason) w) = Some (code, Some reason).
Proof.
  intros H. unfold cleanupTimeoutCallback, finalExit, process_exit, exec.
  rewrite H. reflexivity.
Qed.

(** C5, as claimed, fails on the actions that do not test the latch.  In
    the run where the first child hangs and its successor completes at
    once, the shutdown is requested while the SIGKILL timeout of the hang
    is pending; when that timeout fires, with [shuttingDown] true, it calls
    [kill('SIGKILL')] on the current child, whose process is gone.  The
    SIGKILL timeout of the shutdown fires next, and then the shutdown
    timeout, which exits the process: two actions queued by the shutdown
    request itself. *)
Lemma queued_actions_survive_shutdown :
  let w := play Scenario.started Scenario.hang_then_success in
  let w1 := dispatch (EvTimer 1%nat) 307000 w in
  let w2 := dispatch (EvTimer 4%nat) 310000 w1 in
  let w3 := dispatch (EvTimer 5%nat) 315000 w2 in
  run Scenario.started
    (Scenario.hang_then_success ++
     [(EvTimer 1%nat, 307000); (EvTimer 4%nat, 310000); (EvTimer 5%nat, 315000)])
  = Some w3 /\
  shuttingDown (st w) = true /\
  (task <$> timers w !! 1%nat) = Some (HangSigkill 0) /\
  trace w1 = trace w ++ [KillCall 1 SIGKILL false] /\
  (task <$> timers w !! 4%nat) = Some (ForceKill 1) /\
  trace w2 = trace w1 ++ [KillCall 1 SIGKILL false] /\
  (task <$> timers w !! 5%nat)
  = Some (CleanupTimeout 0 (js "Claude completed successfully")) /\
  exited w2 = None /\
  exited w3 = Some (0, Some (js "Claude completed successfully")).
Proof. cbn zeta. vm_compute. repeat split. Qed.

(** ** Hang detectors *)

(** C9 fails on the code.  When the first child exits with status 1
    without having hung, the interval armed at initialization is still
    running when the restart calls [startHangDetection] again: afterwards
    two hang-detection intervals are armed, both can fire, and
    [hangDetectionInterval] holds only the newer one. *)
Theorem restart_leaves_two_hang_detectors :
  exists w',
    run Scenario.started Scenario.plain_failure = Some w' /\
    length (hangDetectors w') = 2%nat /\
    (task <$> timers w' !! 0%nat) = Some HangCheck /\
    (task <$> timers w' !! 2%nat) = Some HangCheck /\
    hangDetectionInterval (st w') = Some 2%nat /\
    enabled (EvTimer 0%nat) 6010 w' = true /\
    enabled (EvTimer 2%nat) 9000 w' = true.
Proof.
  eexists. split; [vm_compute; reflexivity|].
  vm_compute. repeat split.
Qed.

(** ** Invariants of callbacks *)

Lemma exec_bind {A B} (m : M A) (k : A -> M B) w :
  exec (bind m k) w = exec (k (eval m w)) (exec m w).
Proof. unfold exec, eval, bind. destruct (m w); reflexivity. Qed.

Lemma healthResponse_pure method pathname w :
  exec (healthResponse method pathname) w = w.
Proof.
  unfold healthResponse.
  destruct (negb (jsstring_eqb method (js "GET"))); [reflexivity|].
  destruct (jsstring_eqb pathname (js "/health")).
  - cbv [exec bind read Date_now ret childPid child_pid childNotKilled child_killed].
    destruct (claudeProcess (st w)) eqn:Ecp; cbn; rewrite ?Ecp; reflexivity.
  - destruct (jsstring_eqb pathname (js "/debug")); [|reflexivity].
    cbv [exec bind read Date_now ret child_pid child_killed].
    destruct (claudeProcess (st w)) eqn:Ecp; cbn; rewrite ?Ecp; reflexivity.
Qed.

Lemma handleHealthRequest_pure req w : exec (handleHealthRequest req) w = w.
Proof.
  unfold handleHealthRequest. destruct (req_url req); [reflexivity|].
  rewrite exec_bind. apply healthResponse_pure.
Qed.

Lemma preserves_bind P {A B} (m : M A) (k : A -> M B) :
  preserves P m -> (forall a, preserves P (k a)) -> preserves P (bind m k).
Proof. intros Hm Hk w Hw. rewrite exec_bind. apply Hk, Hm, Hw. Qed.

Lemma preserves_ret P {A} (a : A) : preserves P (ret a).
Proof. intros w H. exact H. Qed.

Lemma preserves_and (P Q : World -> Prop) {A} (m : M A) :
  preserves P m -> preserves Q m -> preserves (fun w => P w /\ Q w) m.
Proof. intros HP HQ w [H1 H2]. split; [apply HP | apply HQ]; assumption. Qed.

Lemma preserves_inert P {A} (m : M A) : ViewInv P -> inert m -> preserves P m.
Proof. intros HP Hm w H. exact (HP w _ (Hm w) H). Qed.

Lemma inert_read {A} (f : SupervisorState -> A) : inert (read f).
Proof. intros w. reflexivity. Qed.
Lemma inert_now : inert Date_now.
Proof. intros w. reflexivity. Qed.
Lemma inert_emit e : inert (emit e).
Proof. intros w. reflexivity. Qed.
Lemma inert_spawn : inert spawn.
Proof. intros w. reflexivity. Qed.
Lemma inert_killed p : inert (child_killed p).
Proof. intros w. reflexivity. Qed.
Lemma inert_get_cleanup : inert get_cleanup.
Proof. intros w. reflexivity. Qed.
Lemma inert_kill p s : inert (kill p s).
Proof. intros w. unfold kill, exec. repeat case_match; reflexivity. Qed.
Lemma inert_reap p : inert (reap p).
Proof. intros w. unfold reap, exec. repeat case_match; reflexivity. Qed.
Lemma inert_request req : inert (handleHealthRequest req).
Proof. intros w. rewrite handleHealthRequest_pure. reflexivity. Qed.
Lemma inert_write f :
  (forall s, (shuttingDown (f s), exitCode (f s), restartCount (f s),
              restartTimestamps (f s))
             = (shuttingDown s, exitCode s, restartCount s, restartTimestamps s)) ->
  inert (write f).
Proof.
  intros Hf w. unfold view, exec, write. cbn.
  specialize (Hf (st w)). congruence.
Qed.

Create HintDb pres.
#[local] Hint Resolve inert_read inert_now inert_emit inert_spawn inert_killed
  inert_get_cleanup inert_kill inert_reap inert_request : pres.
#[local] Hint Extern 1 (inert (write _)) =>
  apply inert_write; intros; reflexivity : pres.

Ltac pres_step :=
  match goal with
  | |- preserves _ (bind _ _) => apply preserves_bind; [|intros ?]
  | |- preserves _ (ret _) => apply preserves_ret
  | |- preserves _ skip => apply preserves_ret
  | |- preserves _ (if ?b then _ else _) => destruct b
  | |- preserves _ (match ?x with _ => _ end) => destruct x
  end.

Ltac pres := repeat pres_step; eauto 6 with pres.

Section Handlers.
Variable P : World -> Prop.
Hypothesis P_view : ViewInv P.
Hypothesis P_arm :
  forall t d p, isCleanupTimeout t = false -> preserves P (arm t d p).
Hypothesis P_clear : forall h, preserves P (clearTimer h).
Hypothesis P_record : preserves P recordRestartAttempt.
Hypothesis P_settled : preserves P allSettled.
Hypothesis P_resolveHttp : preserves P resolveHttp.
Hypothesis P_resolveChild : preserves P resolveChild.
Hypothesis P_shutdown :
  forall c r, ExitCause c (Some r) -> preserves P (gracefulShutdown c r).
Hypothesis P_fire :
  forall id,
    (forall t, isCleanupTimeout t = false -> preserves P (runTask t)) ->
    preserves P (fireTimer id).
Hypothesis P_ready : preserves P (fun w => (tt, set_initPending false w)).

Local Hint Resolve P_view P_clear P_record P_settled P_resolveHttp
  P_resolveChild P_fire P_ready : pres.
Local Hint Extern 1 (preserves P (arm _ _ _)) => apply P_arm; reflexivity : pres.
Local Hint Extern 1 (preserves P (setTimeout _ _)) => apply P_arm; reflexivity : pres.
Local Hint Extern 1 (preserves P (setInterval _ _)) => apply P_arm; reflexivity : pres.
Local Hint Extern 1 (preserves P (gracefulShutdown _ _)) =>
  apply P_shutdown; constructor : pres.
Local Hint Extern 3 (preserves P _) => apply preserves_inert : pres.

Lemma spawnClaudeProcess_preserves : preserves P spawnClaudeProcess.
Proof. unfold spawnClaudeProcess. pres. Qed.

Lemma startHangDetection_preserves : preserves P startHangDetection.
Proof. unfold startHangDetection. pres. Qed.

Local Hint Resolve spawnClaudeProcess_preserves startHangDetection_preserves : pres.

Lemma restartCallback_preserves : preserves P restartCallback.
Proof. unfold restartCallback. pres. Qed.

Lemma hangCheck_preserves : preserves P hangCheck.
Proof. unfold hangCheck, killHangingProcess. pres. Qed.

Lemma hangSigkillCallback_preserves : preserves P hangSigkillCallback.
Proof. unfold hangSigkillCallback. pres. Qed.

Lemma forceKillCallback_preserves : preserves P forceKillCallback.
Proof. unfold forceKillCallback. pres. Qed.

Lemma handleClaudeFailure_preserves : preserves P handleClaudeFailure.
Proof. unfold handleClaudeFailure, canAttemptRestart, scheduleRestart. pres. Qed.

Local Hint Resolve restartCallback_preserves hangCheck_preserves
  hangSigkillCallback_preserves forceKillCallback_preserves
  handleClaudeFailure_preserves : pres.

Lemma emitExit_preserves p code : preserves P (emitExit p code).
Proof. unfold emitExit, onExit, shutdownExitListener. pres. Qed.

Lemma timer_preserves id : preserves P (fireTimer id).
Proof.
  apply P_fire. intros t Ht.
  destruct t; cbn in *; [pres .. | discriminate].
Qed.

(** Every handler but the [catch] of the initialization. *)
Lemma handler_preserves ev : ev <> EvListenError -> preserves P (handler ev).
Proof.
  intros Hev. destruct ev; cbn;
    unfold initializeSupervisor_resume, onStdoutData, onStderrData, onError,
      onProcessSignal, onUncaughtException, onUnhandledRejection;
    [ pres | congruence | pres | apply emitExit_preserves | pres
    | apply timer_preserves | pres .. ].
Qed.
End Handlers.

(** *** Invariants of the state object alone *)

Lemma preserves_keeps P {A} (m : M A) : StateInv P -> keeps m -> preserves P m.
Proof. intros HP Hm w H. destruct (Hm w) as [H1 H2]. exact (HP w _ H1 H2 H). Qed.

Lemma keeps_arm t d p : keeps (arm t d p).
Proof. intros w. split; reflexivity. Qed.
Lemma keeps_clear h : keeps (clearTimer h).
Proof. intros w. destruct h; split; reflexivity. Qed.
Lemma keeps_exit c r : keeps (process_exit c r).
Proof. intros w. unfold process_exit, exec. destruct (exited w); split; reflexivity. Qed.
Lemma keeps_put_cleanup c : keeps (put_cleanup c).
Proof. intros w. split; reflexivity. Qed.
Lemma keeps_settled : keeps allSettled.
Proof.
  intros w. unfold allSettled, finalExit, process_exit, exec, bind, get_cleanup. cbn.
  repeat case_match; split; reflexivity.
Qed.
Lemma keeps_resolveHttp : keeps resolveHttp.
Proof. intros w. unfold resolveHttp, exec, bind, get_cleanup. cbn. case_match; split; reflexivity. Qed.
Lemma keeps_resolveChild : keeps resolveChild.
Proof. intros w. unfold resolveChild, exec, bind, get_cleanup. cbn. case_match; split; reflexivity. Qed.

Section StateHandlers.
Variable P : World -> Prop.
Hypothesis P_state : StateInv P.
Hypothesis P_view : ViewInv P.
Hypothesis P_latch : preserves P (write (set_shuttingDown true)).
Hypothesis P_code : forall c, preserves P (write (set_exitCode c)).
Hypothesis P_record : preserves P recordRestartAttempt.
Hypothesis P_ready : preserves P (fun w => (tt, set_initPending false w)).

Local Hint Resolve P_view P_latch P_code keeps_arm keeps_clear keeps_exit keeps_put_cleanup
  keeps_settled keeps_resolveHttp keeps_resolveChild : pres.
Local Hint Extern 2 (preserves P _) => apply (preserves_keeps P _ P_state) : pres.
Local Hint Extern 3 (preserves P _) => apply preserves_inert : pres.

Lemma state_shutdown c r : preserves P (gracefulShutdown c r).
Proof. unfold gracefulShutdown, setTimeout, finalExit. pres. Qed.

Lemma state_fire id :
  (forall t, isCleanupTimeout t = false -> preserves P (runTask t)) ->
  preserves P (fireTimer id).
Proof.
  intros Hrun w H. unfold fireTimer, exec.
  destruct (timers w !! id) as [t|]; [|exact H].
  match goal with |- P (runTask _ ?w1).2 =>
    assert (P w1) as H1 by (apply (P_state w); [reflexivity .. | exact H])
  end.
  destruct (task t) eqn:Et;
    try (apply Hrun; [reflexivity | exact H1]).
  apply (preserves_keeps P _ P_state (keeps_exit _ _)). exact H1.
Qed.

Theorem state_handler ev : preserves P (handler ev).
Proof.
  assert (forall ev, ev <> EvListenError -> preserves P (handler ev)) as Hgen.
  { intros ev' Hev. apply handler_preserves; auto with pres.
    - intros; apply state_shutdown.
    - apply state_fire. }
  destruct ev; try (apply Hgen; discriminate).
  cbn. unfold initializeSupervisor_catch. pres.
Qed.
End StateHandlers.

(** *** The restart count and the restart history *)

Lemma CountInv_state : StateInv CountInv.
Proof. intros w w' Hst _ H. unfold CountInv in *. rewrite Hst. exact H. Qed.

Lemma CountInv_view : ViewInv CountInv.
Proof.
  intros w w' Hv H. unfold CountInv, view in *.
  injection Hv as _ _ Hc Hs _ _ _ _. rewrite Hc, Hs. exact H.
Qed.

Lemma count_record : preserves CountInv recordRestartAttempt.
Proof.
  intros w H. unfold CountInv in *. cbv [exec]. cbn.
  rewrite H, length_app. cbn. lia.
Qed.

Lemma count_handler ev : preserves CountInv (handler ev).
Proof.
  apply state_handler.
  - exact CountInv_state.
  - exact CountInv_view.
  - intros w H. exact H.
  - intros c w H. exact H.
  - exact count_record.
  - intros w H. exact H.
Qed.

Lemma initialize_preserves P :
  ViewInv P ->
  preserves P (process_exit 1 None) ->
  preserves P (fun w => (tt, set_initPending true w)) ->
  preserves P initializeSupervisor.
Proof.
  intros Hv He Hi. unfold initializeSupervisor.
  repeat pres_step; auto using preserves_inert with pres.
Qed.

Lemma count_boot env_session arg now : CountInv (boot env_session arg now).
Proof.
  unfold boot. apply initialize_preserves.
  - exact CountInv_view.
  - apply (preserves_keeps _ _ CountInv_state), keeps_exit.
  - intros w H. exact H.
  - reflexivity.
Qed.

(** *** The latch *)

Lemma Latched_state : StateInv Latched.
Proof. intros w w' Hst _ H. unfold Latched in *. rewrite Hst. exact H. Qed.

Lemma Latched_view : ViewInv Latched.
Proof.
  intros w w' Hv H. unfold Latched, view in *.
  injection Hv as Hsd _ _ _ _ _ _ _. rewrite Hsd. exact H.
Qed.

Lemma latched_handler ev : preserves Latched (handler ev).
Proof.
  apply state_handler.
  - exact Latched_state.
  - exact Latched_view.
  - intros w H. reflexivity.
  - intros c w H. exact H.
  - intros w H. exact H.
  - intros w H. exact H.
Qed.

Lemma latched_dispatch ev now w : Latched w -> Latched (dispatch ev now w).
Proof. intros H. apply latched_handler. exact H. Qed.

(** *** The initialization does not start twice *)

Lemma Ready_state : StateInv Ready.
Proof. intros w w' _ Hi H. unfold Ready in *. rewrite Hi. exact H. Qed.

Lemma Ready_view : ViewInv Ready.
Proof.
  intros w w' Hv H. unfold Ready, view in *.
  injection Hv as _ _ _ _ _ _ _ Hi. rewrite Hi. exact H.
Qed.

Lemma ready_handler ev : preserves Ready (handler ev).
Proof.
  apply state_handler.
  - exact Ready_state.
  - exact Ready_view.
  - intros w H. exact H.
  - intros c w H. exact H.
  - intros w H. exact H.
  - intros w H. reflexivity.
Qed.

(** C8. In every reachable world [restartCount] is the length of
    [restartTimestamps], and every reaction of the event loop keeps it so:
    the state starts with 0 and the empty history, the callback of
    [scheduleRestart] adds one to the count and one entry to the history in
    the same reaction, and no other callback writes either field. *)
Theorem restartCount_is_history_length (w : World) :
  reachable w ->
  restartCount (st w) = Z.of_nat (length (restartTimestamps (st w))) /\
  forall ev now,
    restartCount (st (dispatch ev now w))
    = Z.of_nat (length (restartTimestamps (st (dispatch ev now w)))).
Proof.
  intros Hw.
  assert (CountInv w) as H.
  { induction Hw as [env_session arg now | w ev now Hw IH He].
    - apply count_boot.
    - apply count_handler. exact IH. }
  split; [exact H|].
  intros ev now. apply count_handler. exact H.
Qed.

Lemma restartCount_is_history_length_witness :
  restartCount (st (play Scenario.started Scenario.plain_failure))
  = Z.of_nat (length (restartTimestamps (st (play Scenario.started Scenario.plain_failure)))).
Proof.
  destruct (restartCount_is_history_length
              (play Scenario.started Scenario.plain_failure)) as [H _];
    [|exact H].
  apply (run_reachable Scenario.started Scenario.plain_failure).
  - apply reachable_step; [apply reachable_boot | reflexivity].
  - vm_compute. reflexivity.
Defined.

(** *** No shutdown timeout is pending before a shutdown is requested *)

Lemma noCleanupTimeout_insert ts id t :
  noCleanupTimeout ts -> isCleanupTimeout (task t) = false ->
  noCleanupTimeout (<[id := t]> ts).
Proof.
  intros H Ht id' t'. rewrite lookup_insert. case_decide.
  - intros [= <-]. exact Ht.
  - apply H.
Qed.

Lemma noCleanupTimeout_delete ts id :
  noCleanupTimeout ts -> noCleanupTimeout (delete id ts).
Proof.
  intros H id' t'. rewrite lookup_delete. case_decide; [discriminate | apply H].
Qed.

Lemma Quiet_view : ViewInv Quiet.
Proof.
  intros w w' Hv H. unfold Quiet, Latched, view in *.
  injection Hv as Hsd _ _ _ Ht Hc _ _. rewrite Hsd, Ht, Hc. exact H.
Qed.

(** Callbacks that touch neither [shuttingDown], nor the timers, nor the
    cleanup promises. *)
Lemma quiet_frame {A} (m : M A) :
  (forall w, shuttingDown (st (exec m w)) = shuttingDown (st w) /\
             timers (exec m w) = timers w /\ cleanup (exec m w) = cleanup w) ->
  preserves Quiet m.
Proof.
  intros Hm w H. destruct (Hm w) as (H1 & H2 & H3).
  unfold Quiet, Latched in *. rewrite H1, H2, H3. exact H.
Qed.

Lemma quiet_resolve (m : M unit) :
  (forall w, shuttingDown (st (exec m w)) = shuttingDown (st w) /\
             timers (exec m w) = timers w) ->
  (forall w, cleanup w = None -> cleanup (exec m w) = None) ->
  preserves Quiet m.
Proof.
  intros Hm Hc w H. destruct (Hm w) as (H1 & H2).
  unfold Quiet, Latched in *. rewrite H1, H2.
  destruct H as [H|[H H']]; [left; exact H | right]. split; [exact H | apply Hc, H'].
Qed.

Lemma quiet_arm t d p : isCleanupTimeout t = false -> preserves Quiet (arm t d p).
Proof.
  intros Ht w [H|[H H']]; [left; exact H | right]. split; [|exact H'].
  apply noCleanupTimeout_insert; [exact H | exact Ht].
Qed.

Lemma quiet_clear h : preserves Quiet (clearTimer h).
Proof.
  intros w [H|[H H']]; [left; destruct h; exact H | right].
  destruct h; (split; [|exact H']); [apply noCleanupTimeout_delete|]; exact H.
Qed.

Lemma Committed_state c ip : StateInv (Committed c ip).
Proof.
  intros w w' Hst Hi H. unfold Committed in *. rewrite Hst, Hi. exact H.
Qed.

Lemma Committed_view c ip : ViewInv (Committed c ip).
Proof.
  intros w w' Hv H. unfold Committed, view in *.
  injection Hv as Hsd Hc _ _ _ _ _ Hi. rewrite Hsd, Hc, Hi. exact H.
Qed.

Lemma gracefulShutdown_latched c r w :
  shuttingDown (st w) = true -> exec (gracefulShutdown c r) w = w.
Proof.
  intros H. unfold gracefulShutdown. rewrite exec_bind.
  change (eval (read shuttingDown) w) with (shuttingDown (st w)). rewrite H.
  reflexivity.
Qed.

Lemma gracefulShutdown_commits c r w :
  shuttingDown (st w) = false ->
  Committed c (initPending w) (exec (gracefulShutdown c r) w).
Proof.
  intros E. unfold gracefulShutdown. rewrite exec_bind.
  change (eval (read shuttingDown) w) with (shuttingDown (st w)). rewrite E.
  rewrite exec_bind. cbv beta. rewrite exec_bind. cbv beta.
  match goal with |- Committed c ?ip (exec ?m ?w1) =>
    assert (preserves (Committed c ip) m) as Hm;
      [|apply Hm; repeat split]
  end.
  assert (Hk : forall A (m : M A), keeps m -> preserves (Committed c (initPending w)) m)
    by (intros; apply preserves_keeps; [apply Committed_state | assumption]).
  assert (Hv : forall A (m : M A), inert m -> preserves (Committed c (initPending w)) m)
    by (intros; apply preserves_inert; [apply Committed_view | assumption]).
  unfold setTimeout, finalExit.
  repeat pres_step;
    auto using keeps_arm, keeps_clear, keeps_put_cleanup, keeps_settled with pres.
Qed.

Lemma gracefulShutdown_latches c r w : Latched (exec (gracefulShutdown c r) w).
Proof.
  destruct (shuttingDown (st w)) eqn:E.
  - rewrite gracefulShutdown_latched; assumption.
  - apply (gracefulShutdown_commits c r w E).
Qed.

Lemma quiet_shutdown c r : preserves Quiet (gracefulShutdown c r).
Proof. intros w _. left. apply gracefulShutdown_latches. Qed.

Lemma quiet_fire id :
  (forall t, isCleanupTimeout t = false -> preserves Quiet (runTask t)) ->
  preserves Quiet (fireTimer id).
Proof.
  intros Hrun w H. unfold fireTimer, exec.
  destruct (timers w !! id) as [t|] eqn:Et; [|exact H].
  destruct (isCleanupTimeout (task t)) eqn:Ect.
  - destruct H as [H|[H _]]; [|rewrite (H _ _ Et) in Ect; discriminate].
    left. destruct (task t); try discriminate. cbn.
    unfold cleanupTimeoutCallback, finalExit, process_exit. cbn.
    destruct (period t); destruct (exited w); exact H.
  - apply (Hrun _ Ect). destruct H as [H|[H H']]; [left; exact H | right]. cbn.
    split; [|exact H']. destruct (period t).
    + apply noCleanupTimeout_insert; [exact H | exact Ect].
    + apply noCleanupTimeout_delete, H.
Qed.

Lemma quiet_handler ev : preserves Quiet (handler ev).
Proof.
  assert (forall ev, ev <> EvListenError -> preserves Quiet (handler ev)) as Hgen.
  { intros ev' Hev. apply handler_preserves; try assumption.
    - exact Quiet_view.
    - exact quiet_arm.
    - exact quiet_clear.
    - apply quiet_frame. intros w. repeat split; reflexivity.
    - apply quiet_frame. intros w.
      unfold allSettled, finalExit, process_exit, exec, bind, get_cleanup. cbn.
      repeat case_match; repeat split; cbn; congruence.
    - apply quiet_resolve; intros w; [|intros Hc];
        unfold resolveHttp, exec, bind, get_cleanup; cbn;
        [case_match; split; reflexivity | rewrite Hc; exact Hc].
    - apply quiet_resolve; intros w; [|intros Hc];
        unfold resolveChild, exec, bind, get_cleanup; cbn;
        [case_match; split; reflexivity | rewrite Hc; exact Hc].
    - intros c r _. apply quiet_shutdown.
    - exact quiet_fire.
    - apply quiet_frame. intros w. repeat split; reflexivity. }
  destruct ev; try (apply Hgen; discriminate).
  cbn. apply quiet_frame. intros w.
  unfold initializeSupervisor_catch, process_exit, exec, bind. cbn.
  destruct (exited w); repeat split; reflexivity.
Qed.

Lemma quiet_boot env_session arg now : Quiet (boot env_session arg now).
Proof.
  unfold boot. apply initialize_preserves.
  - exact Quiet_view.
  - apply quiet_frame. intros w. unfold process_exit, exec.
    destruct (exited w); repeat split; reflexivity.
  - apply quiet_frame. intros w. repeat split; reflexivity.
  - right. split; [|reflexivity]. intros id t. cbn. rewrite lookup_empty. discriminate.
Qed.

Lemma reachable_quiet w : reachable w -> Quiet w.
Proof.
  induction 1 as [env_session arg now | w ev now Hw IH He].
  - apply quiet_boot.
  - unfold dispatch. apply quiet_handler.
    revert IH. apply Quiet_view. reflexivity.
Qed.

(** *** What the process exits with *)

Section ExitHandlers.
Variable Ok : Z -> option jsstring -> Prop.
Variable Side : World -> Prop.
Hypothesis Side_state : StateInv Side.
Hypothesis Side_view : ViewInv Side.
Hypothesis Side_record : preserves Side recordRestartAttempt.
Hypothesis Side_ready : preserves Side (fun w => (tt, set_initPending false w)).

Let ED := ExitDiscipline Ok.
Let P := fun w => Side w /\ ED w.

Hypothesis P_shutdown :
  forall c r, ExitCause c (Some r) -> preserves P (gracefulShutdown c r).

Lemma ED_view : ViewInv ED.
Proof.
  intros w w' Hv H. unfold ED, ExitDiscipline, view in *.
  injection Hv as _ _ _ _ Ht Hc He _. rewrite Ht, Hc, He. exact H.
Qed.

Lemma exit_view : ViewInv P.
Proof.
  intros w w' Hv [H1 H2]. split; [exact (Side_view _ _ Hv H1) | exact (ED_view _ _ Hv H2)].
Qed.

Lemma ed_frame {A} (m : M A) :
  (forall w, timers (exec m w) = timers w /\ cleanup (exec m w) = cleanup w /\
             exited (exec m w) = exited w) ->
  preserves ED m.
Proof.
  intros Hm w H. destruct (Hm w) as (H1 & H2 & H3).
  unfold ED, ExitDiscipline in *. rewrite H1, H2, H3. exact H.
Qed.

Lemma ed_arm t d p :
  (forall c r, t = CleanupTimeout c r -> Ok c (Some r)) -> preserves ED (arm t d p).
Proof.
  intros Ht w (H1 & H2 & H3). repeat split; try assumption.
  intros id t' c r. cbn. rewrite lookup_insert. case_decide.
  - intros [= <-]. cbn. apply Ht.
  - apply H3.
Qed.

Lemma ed_clear h : preserves ED (clearTimer h).
Proof.
  intros w (H1 & H2 & H3). destruct h as [id|]; repeat split; try assumption.
  intros id' t c r. cbn. rewrite lookup_delete. case_decide; [discriminate | apply H3].
Qed.

Lemma ed_exit c r : Ok c r -> preserves ED (process_exit c r).
Proof.
  intros Hc w H. unfold process_exit, exec.
  destruct (exited w) eqn:E; [exact H|].
  destruct H as (H1 & H2 & H3). repeat split; try assumption.
  cbn. intros c' r' Heq. inversion Heq; subst. exact Hc.
Qed.

Lemma ed_put_cleanup cl :
  Ok (cleanupCode cl) (Some (cleanupReason cl)) -> preserves ED (put_cleanup (Some cl)).
Proof.
  intros Hc w (H1 & H2 & H3). repeat split; try assumption.
  cbn. intros cl' [= <-]. exact Hc.
Qed.

Lemma ed_settled : preserves ED allSettled.
Proof.
  intros w H. unfold allSettled. rewrite exec_bind.
  change (exec get_cleanup w) with w. change (eval get_cleanup w) with (cleanup w).
  destruct (cleanup w) as [cl|] eqn:E; [|exact H].
  destruct (httpPending cl || bool_decide (is_Some (childPending cl))); [exact H|].
  apply ed_exit; [|exact H]. destruct H as (_ & H2 & _). apply H2, E.
Qed.

Lemma ed_resolveHttp : preserves ED resolveHttp.
Proof.
  intros w H. unfold resolveHttp. rewrite exec_bind.
  change (exec get_cleanup w) with w. change (eval get_cleanup w) with (cleanup w).
  destruct (cleanup w) as [cl|] eqn:E; [|exact H].
  apply ed_put_cleanup; [|exact H]. destruct H as (_ & H2 & _). apply (H2 _ E).
Qed.

Lemma ed_resolveChild : preserves ED resolveChild.
Proof.
  intros w H. unfold resolveChild. rewrite exec_bind.
  change (exec get_cleanup w) with w. change (eval get_cleanup w) with (cleanup w).
  destruct (cleanup w) as [cl|] eqn:E; [|exact H].
  apply ed_put_cleanup; [|exact H]. destruct H as (_ & H2 & _). apply (H2 _ E).
Qed.

Lemma ed_shutdown c r : Ok c (Some r) -> preserves ED (gracefulShutdown c r).
Proof.
  intros Hc. unfold gracefulShutdown, setTimeout.
  repeat pres_step;
    try (apply ed_arm; intros c' r' [=]; subst; exact Hc);
    try (apply ed_put_cleanup; exact Hc);
    try (apply ed_frame; intros w; repeat split; reflexivity);
    auto using ed_clear, ed_settled, preserves_inert, ED_view with pres.
Qed.

Local Hint Resolve Side_state : pres.

Lemma keeps_side {A} (m : M A) : keeps m -> preserves Side m.
Proof. apply preserves_keeps, Side_state. Qed.

Lemma exit_fire id :
  (forall t, isCleanupTimeout t = false -> preserves P (runTask t)) ->
  preserves P (fireTimer id).
Proof.
  intros Hrun w [HS H]. unfold fireTimer, exec.
  destruct (timers w !! id) as [t|] eqn:Et; [|split; assumption].
  match goal with |- P (runTask _ ?w1).2 => assert (P w1) as H1 end.
  { split; [apply (Side_state w); [reflexivity .. | exact HS]|].
    destruct H as (H1 & H2 & H3). repeat split; try assumption.
    intros id' t' c r. cbn. destruct (period t).
    - rewrite lookup_insert. case_decide; [|apply H3].
      intros [= <-]. cbn. apply (H3 _ _ _ _ Et).
    - rewrite lookup_delete. case_decide; [discriminate | apply H3]. }
  destruct (task t) eqn:Etask; try (apply Hrun; [reflexivity | exact H1]).
  cbn. apply preserves_and; [apply keeps_side, keeps_exit | | exact H1].
  apply ed_exit. destruct H as (_ & _ & H3). exact (H3 _ _ _ _ Et Etask).
Qed.

Lemma exit_handler ev : ev <> EvListenError -> preserves P (handler ev).
Proof.
  intros Hev. apply handler_preserves; try assumption.
  - exact exit_view.
  - intros t d p Ht. apply preserves_and; [apply keeps_side, keeps_arm|].
    apply ed_arm. intros c r ->. discriminate.
  - intros h. apply preserves_and; [apply keeps_side, keeps_clear | apply ed_clear].
  - apply preserves_and; [exact Side_record|].
    apply ed_frame. intros w. repeat split; reflexivity.
  - apply preserves_and; [apply keeps_side, keeps_settled | apply ed_settled].
  - apply preserves_and; [apply keeps_side, keeps_resolveHttp | apply ed_resolveHttp].
  - apply preserves_and; [apply keeps_side, keeps_resolveChild | apply ed_resolveChild].
  - exact exit_fire.
  - apply preserves_and; [exact Side_ready|].
    apply ed_frame. intros w. repeat split; reflexivity.
Qed.
End ExitHandlers.

(** *** The exit status and its cause *)

Lemma caused_handler ev :
  preserves (fun w => Always w /\ ExitDiscipline ExitCause w) (handler ev).
Proof.
  assert (forall ev, ev <> EvListenError ->
            preserves (fun w => Always w /\ ExitDiscipline ExitCause w) (handler ev))
    as Hgen.
  { intros ev' Hev. apply exit_handler; try assumption.
    - intros w w' _ _ _. exact I.
    - intros w w' _ _. exact I.
    - intros w _. exact I.
    - intros w _. exact I.
    - intros c r Hc. apply preserves_and; [intros w _; exact I|].
      apply ed_shutdown, Hc. }
  destruct ev; try (apply Hgen; discriminate).
  cbn. apply preserves_and; [intros w _; exact I|].
  unfold initializeSupervisor_catch.
  apply preserves_bind; [|intros _; apply ed_exit; constructor].
  apply ed_frame. intros w. repeat split; reflexivity.
Qed.

Lemma caused_boot env_session arg now :
  ExitDiscipline ExitCause (boot env_session arg now).
Proof.
  unfold boot. apply initialize_preserves.
  - apply ED_view.
  - apply ed_exit. constructor.
  - apply ed_frame. intros w. repeat split; reflexivity.
  - repeat split; cbn; discriminate.
Qed.

Lemma reachable_caused w : reachable w -> ExitDiscipline ExitCause w.
Proof.
  induction 1 as [env_session arg now | w ev now Hw IH He].
  - apply caused_boot.
  - unfold dispatch. apply caused_handler. split; [exact I|].
    revert IH. apply ED_view. reflexivity.
Qed.

Lemma onExit_success_requests w :
  shuttingDown (st w) = false ->
  Committed 0 (initPending w) (exec (onExit (Some 0)) w).
Proof.
  intros H. unfold onExit. rewrite exec_bind. cbv beta. rewrite exec_bind.
  set (w1 := exec (write (set_streamActive false)) w).
  change (eval (read shuttingDown) w1) with (shuttingDown (st w)). rewrite H.
  change (exec (read shuttingDown) w1) with w1.
  apply (gracefulShutdown_commits 0 _ w1 H).
Qed.

Lemma handleClaudeFailure_requests w :
  shuttingDown (st w) = false ->
  if eval canAttemptRestart w
  then shuttingDown (st (exec handleClaudeFailure w)) = false
  else Committed 1 (initPending w) (exec handleClaudeFailure w).
Proof.
  intros H. unfold handleClaudeFailure. rewrite exec_bind.
  change (eval (read shuttingDown) w) with (shuttingDown (st w)). rewrite H.
  change (exec (read shuttingDown) w) with w.
  rewrite exec_bind, canAttemptRestart_pure.
  destruct (eval canAttemptRestart w).
  - exact H.
  - rewrite exec_bind. apply (gracefulShutdown_commits 1 _ w H).
Qed.

(** *** The first shutdown request decides *)

Section FirstRequest.
Variables (c1 : Z) (r1 : jsstring).

Lemma firstWins_dispatch ev now w :
  FirstWins c1 r1 w -> enabled ev now w = true ->
  FirstWins c1 r1 (dispatch ev now w).
Proof.
  intros H He.
  assert (FirstWins c1 r1 (set_clock now w)) as H'.
  { destruct H as [H1 H2]. split; [exact H1 | exact H2]. }
  destruct ev; try (apply exit_handler;
    [ apply Committed_state | apply Committed_view
    | intros w' Hw'; exact Hw' | intros w' (? & ? & ?); repeat split; assumption
    | intros c r _ w' Hw'; rewrite gracefulShutdown_latched; [exact Hw' | apply Hw']
    | discriminate | exact H' ]).
  exfalso. destruct H as ((_ & _ & Hr) & _).
  unfold enabled in He. rewrite Hr in He.
  rewrite andb_false_r in He. discriminate.
Qed.

Lemma firstWins_run script w w' :
  FirstWins c1 r1 w -> run w script = Some w' -> FirstWins c1 r1 w'.
Proof.
  revert w. induction script as [|[ev now] script IH]; intros w H Hrun; cbn in Hrun.
  - congruence.
  - destruct (enabled ev now w) eqn:E; [|discriminate].
    eapply IH; [|exact Hrun]. apply firstWins_dispatch; assumption.
Qed.

Lemma firstWins_request w :
  Quiet w -> exited w = None -> initPending w = false ->
  shuttingDown (st w) = false ->
  FirstWins c1 r1 (exec (gracefulShutdown c1 r1) w).
Proof.
  intros [Hq|[Hq Hc]] He Hi Hsd; [unfold Latched in Hq; congruence|].
  split.
  - rewrite <- Hi. apply gracefulShutdown_commits, Hsd.
  - apply ed_shutdown; [split; reflexivity|].
    split; [|split].
    + intros c r Hx. rewrite He in Hx. discriminate.
    + intros cl Hx. rewrite Hc in Hx. discriminate.
    + intros id t c r Ht Htask. specialize (Hq _ _ Ht).
      rewrite Htask in Hq. discriminate.
Qed.
End FirstRequest.

(** C3. Let a shutdown be requested with [(c1, r1)] in a reachable world
    that is running, initialized and not shutting down, let any events
    follow, and let a second request with [(c2, r2)] come then: the second
    call changes nothing, [exitCode] stays [c1], and whatever events follow,
    if the process exits it exits with status [c1] and reason [r1]. *)
Theorem first_shutdown_request_wins
    (w : World) (c1 c2 : Z) (r1 r2 : jsstring)
    (between after : list (Event * Z)) (w1 w2 : World) :
  reachable w -> exited w = None -> initPending w = false ->
  shuttingDown (st w) = false ->
  run (exec (gracefulShutdown c1 r1) w) between = Some w1 ->
  run (exec (gracefulShutdown c2 r2) w1) after = Some w2 ->
  exec (gracefulShutdown c2 r2) w1 = w1 /\
  exitCode (st (exec (gracefulShutdown c1 r1) w)) = Some c1 /\
  shuttingDown (st w2) = true /\ exitCode (st w2) = Some c1 /\
  forall x, exited w2 = Some x -> x = (c1, Some r1).
Proof.
  intros Hw He Hi Hsd Hrun1 Hrun2.
  pose proof (firstWins_request c1 r1 w (reachable_quiet w Hw) He Hi Hsd) as H0.
  pose proof (firstWins_run c1 r1 _ _ _ H0 Hrun1) as H1.
  assert (exec (gracefulShutdown c2 r2) w1 = w1) as Hnoop
    by (apply gracefulShutdown_latched, H1).
  rewrite Hnoop in Hrun2.
  pose proof (firstWins_run c1 r1 _ _ _ H1 Hrun2) as H2.
  split; [exact Hnoop|].
  split; [apply H0|].
  split; [apply H2|].
  split; [apply H2|].
  intros [c r] Hx. destruct H2 as (_ & H2 & _).
  destruct (H2 c r Hx) as [-> ->]. reflexivity.
Qed.

Lemma first_shutdown_request_wins_witness :
  let first := exec (gracefulShutdown 0 (js "SIGTERM received")) Scenario.started in
  let script := [(EvServerClosed, 2002); (EvChildExit 0%nat None, 2003)] in
  exec (gracefulShutdown 1 (js "Uncaught exception: boom")) first = first /\
  exited (play first script) = Some (0, Some (js "SIGTERM received")).
Proof.
  cbn zeta.
  destruct (first_shutdown_request_wins Scenario.started
              0 1 (js "SIGTERM received") (js "Uncaught exception: boom")
              [] [(EvServerClosed, 2002); (EvChildExit 0%nat None, 2003)]
              (exec (gracefulShutdown 0 (js "SIGTERM received")) Scenario.started)
              (play (exec (gracefulShutdown 0 (js "SIGTERM received")) Scenario.started)
                 [(EvServerClosed, 2002); (EvChildExit 0%nat None, 2003)]))
    as (H1 & _ & _ & _ & H5).
  - exact started_reachable.
  - reflexivity.
  - reflexivity.
  - reflexivity.
  - reflexivity.
  - vm_compute. reflexivity.
  - split; [exact H1|]. vm_compute. reflexivity.
Defined.

(** C4, as claimed, fails in two ways.  In the run where SIGTERM is
    followed by an uncaught exception, a fault has occurred and the process
    exits with status 0, the status of the first request.  In the run
    where the status server fails to start, the session identifier and the
    command are valid, no child ever ran and no exception or rejection
    occurred, and the process exits with status 1. *)
Lemma exit_status_not_by_occurrence :
  (let w := play Scenario.started Scenario.signal_then_fault in
   run Scenario.started Scenario.signal_then_fault = Some w /\
   In (EvUncaughtException (js "boom"), 2001) Scenario.signal_then_fault /\
   exited w = Some (0, Some (js "SIGTERM received"))) /\
  (let w0 := boot (Some (js "session-1")) (Some (js "What is 2+2?")) 1000 in
   let w := play w0 [(EvListenError, 1005)] in
   exited w0 = None /\
   run w0 [(EvListenError, 1005)] = Some w /\
   children w = [] /\
   exited w = Some (1, None)).
Proof.
  cbn zeta. split.
  - split; [vm_compute; reflexivity|].
    split; [right; left; reflexivity | vm_compute; reflexivity].
  - repeat split; vm_compute; reflexivity.
Qed.

(** * Further properties *)

(** ** Invariants of every reaction

    An invariant is carried through the handlers in the order in which they
    call one another.  [frame] proves that a primitive preserves an
    invariant by running it; a callback whose writes depend on what it has
    read (the clock, a fresh handle) is proved beforehand and found among
    the hypotheses; a callback that does not maintain the invariant on its
    own is left out, and its callers are then proved beforehand too. *)

Ltac frame :=
  intro; intro;
  cbv [exec read write Date_now emit process_exit arm setTimeout setInterval
       clearTimer spawn child_killed kill get_cleanup put_cleanup reap skip ret];
  cbn beta iota;
  repeat case_match;
  assumption.

Ltac known P m tac :=
  lazymatch goal with
  | _ : preserves P m |- _ => idtac
  | _ => try (assert (preserves P m) by tac)
  end.

Ltac known1 P m tac :=
  lazymatch goal with
  | _ : (forall a, preserves P (m a)) |- _ => idtac
  | _ => try (assert (forall a, preserves P (m a)) by (intro; tac))
  end.

Ltac known2 P m tac :=
  lazymatch goal with
  | _ : (forall a b, preserves P (m a b)) |- _ => idtac
  | _ => try (assert (forall a b, preserves P (m a b)) by (intro; intro; tac))
  end.

Ltac carry leaf :=
  repeat first [ assumption | pres_step ]; first [ solve [auto] | leaf ].

(** Needs [forall id, preserves P (fireTimer id)] among the hypotheses when
    [P] looks at the timers. *)
Ltac every_handler P leaf :=
  known P allSettled ltac:(unfold allSettled, finalExit; carry leaf);
  known P resolveHttp ltac:(unfold resolveHttp; carry leaf);
  known P resolveChild ltac:(unfold resolveChild; carry leaf);
  known2 P gracefulShutdown ltac:(unfold gracefulShutdown; carry leaf);
  known P spawnClaudeProcess ltac:(unfold spawnClaudeProcess; carry leaf);
  known1 P onStdoutData ltac:(unfold onStdoutData; carry leaf);
  known1 P onStderrData ltac:(unfold onStderrData; carry leaf);
  known P startHangDetection ltac:(unfold startHangDetection; carry leaf);
  known P killHangingProcess ltac:(unfold killHangingProcess; carry leaf);
  known P hangSigkillCallback ltac:(unfold hangSigkillCallback; carry leaf);
  known P hangCheck ltac:(unfold hangCheck; carry leaf);
  known P canAttemptRestart ltac:(unfold canAttemptRestart; carry leaf);
  known P recordRestartAttempt ltac:(unfold recordRestartAttempt; carry leaf);
  known P restartCallback ltac:(unfold restartCallback; carry leaf);
  known P scheduleRestart ltac:(unfold scheduleRestart; carry leaf);
  known P handleClaudeFailure ltac:(unfold handleClaudeFailure; carry leaf);
  known1 P onExit ltac:(unfold onExit; carry leaf);
  known P forceKillCallback ltac:(unfold forceKillCallback; carry leaf);
  known1 P shutdownExitListener ltac:(unfold shutdownExitListener; carry leaf);
  known2 P cleanupTimeoutCallback ltac:(unfold cleanupTimeoutCallback, finalExit; carry leaf);
  known1 P runTask ltac:(match goal with |- preserves _ (runTask ?t) => destruct t end;
                         cbn [runTask]; carry leaf);
  known2 P emitExit ltac:(unfold emitExit; carry leaf);
  known1 P fireTimer
    ltac:(intro; intro; unfold fireTimer, exec;
          case_match; [|assumption];
          match goal with Hr : forall t, preserves P (runTask t) |- _ => apply Hr end;
          assumption);
  known1 P handleHealthRequest
    ltac:(intro; intro; rewrite handleHealthRequest_pure; assumption);
  known1 P handler
    ltac:(match goal with |- preserves _ (handler ?ev) => destruct ev end;
          cbn [handler];
          unfold initializeSupervisor_resume, initializeSupervisor_catch, onError,
            onProcessSignal, onUncaughtException, onUnhandledRejection;
          carry leaf).


(** ** The identity of the run *)

Lemma identity_handler sid cmd start ev :
  preserves (Identity sid cmd start) (handler ev).
Proof. every_handler (Identity sid cmd start) ltac:(frame). auto. Qed.

Lemma identity_boot env_session arg now :
  Identity (or_default env_session (js "unknown")) (or_default arg []) now
    (boot env_session arg now).
Proof.
  unfold boot.
  assert (preserves (Identity (or_default env_session (js "unknown"))
                       (or_default arg []) now) initializeSupervisor) as H
    by (unfold initializeSupervisor; carry ltac:(frame)).
  apply H. repeat split.
Qed.

Lemma identity_run sid cmd start script w w' :
  Identity sid cmd start w -> run w script = Some w' -> Identity sid cmd start w'.
Proof.
  revert w. induction script as [|[ev now] script IH]; intros w H Hrun; cbn in Hrun.
  - congruence.
  - destruct (enabled ev now w); [|discriminate].
    eapply IH; [|exact Hrun]. apply identity_handler. exact H.
Qed.

(** The session identifier, the command and the start time are fixed at
    module load: whatever events follow, they stay [SESSION_ID] (or
    ['unknown']), [argv[2]] (or the empty string) and the time of the
    load. *)
Theorem session_command_start_never_change
    (env_session arg : option jsstring) (now : Z)
    (script : list (Event * Z)) (w : World) :
  run (boot env_session arg now) script = Some w ->
  sessionId (st w) = or_default env_session (js "unknown") /\
  claudeCommand (st w) = or_default arg [] /\
  startTime (st w) = now.
Proof.
  intros Hrun. eapply identity_run; [apply identity_boot | exact Hrun].
Qed.

Lemma session_command_start_never_change_witness :
  sessionId (st (play Scenario.started Scenario.plain_failure)) = js "session-1".
Proof.
  apply (session_command_start_never_change
           (Some (js "session-1")) (Some (js "What is 2+2?")) 1000
           ((EvListening, 1010) :: Scenario.plain_failure)).
  vm_compute. reflexivity.
Defined.

(** ** The latch is permanent *)

Lemma sealed_handler code ev : preserves (Sealed code) (handler ev).
Proof.
  assert (forall c r, preserves (Sealed code) (gracefulShutdown c r)) as Hgs.
  { intros c r w H. rewrite gracefulShutdown_latched; [exact H | apply H]. }
  every_handler (Sealed code) ltac:(frame). auto.
Qed.

(** Once [shuttingDown] is true no reaction resets it, and [exitCode]
    keeps the value it had when the latch was set. *)
Theorem latch_is_permanent (w : World) (script : list (Event * Z)) :
  shuttingDown (st w) = true ->
  shuttingDown (st (play w script)) = true /\
  exitCode (st (play w script)) = exitCode (st w).
Proof.
  intros H.
  assert (Sealed (exitCode (st w)) w) as Hs by (split; [exact H | reflexivity]).
  clear H. revert w Hs. induction script as [|[ev now] script IH]; intros w Hs.
  - exact Hs.
  - cbn [play fold_left]. 
    assert (Sealed (exitCode (st w)) (dispatch ev now w)) as H1
      by (apply sealed_handler; exact Hs).
    destruct H1 as [H1 H2].
    specialize (IH (dispatch ev now w)). unfold play in IH.
    cbn [fst snd]. rewrite <- H2.
    apply IH. split; [exact H1 | reflexivity].
Qed.

Lemma latch_is_permanent_witness :
  shuttingDown (st (play Scenario.signalled
                     [(EvUncaughtException (js "boom"), 2001)])) = true.
Proof.
  apply (latch_is_permanent Scenario.signalled). reflexivity.
Defined.

(** ** The exit status and the events of the run *)

Lemma exitDiscipline_mono (Ok Ok' : Z -> option jsstring -> Prop) w :
  (forall c r, Ok c r -> Ok' c r) -> ExitDiscipline Ok w -> ExitDiscipline Ok' w.
Proof.
  intros Hsub (H1 & H2 & H3). split; [|split].
  - intros c r He. apply Hsub, (H1 c r He).
  - intros cl Hc. apply Hsub, (H2 cl Hc).
  - intros id t c r Ht Hk. apply Hsub, (H3 id t c r Ht Hk).
Qed.

Ltac ed_leaf :=
  first [ apply ed_clear
        | unfold setTimeout, setInterval; apply ed_arm; intros ? ? [=]
        | apply ed_frame; intro;
          cbv [exec read write Date_now emit spawn child_killed kill get_cleanup
               reap skip ret];
          cbn beta iota; repeat case_match; repeat split; reflexivity
        | exfalso; congruence ].

Lemma caused_fire (Ok : Z -> option jsstring -> Prop) id :
  (forall t, isCleanupTimeout t = false -> preserves (ExitDiscipline Ok) (runTask t)) ->
  preserves (ExitDiscipline Ok) (fireTimer id).
Proof.
  intros Hrun w H. unfold fireTimer, exec.
  destruct (timers w !! id) as [t|] eqn:Et; [|exact H].
  match goal with |- ExitDiscipline Ok (runTask _ ?w1).2 =>
    assert (ExitDiscipline Ok w1) as H1 end.
  { destruct H as (H1 & H2 & H3). repeat split; try assumption.
    intros id' t' c r. cbn. destruct (period t).
    - rewrite lookup_insert. case_decide; [|apply H3].
      intros [= <-]. cbn. apply (H3 _ _ _ _ Et).
    - rewrite lookup_delete. case_decide; [discriminate | apply H3]. }
  destruct (task t) eqn:Etask; try (apply Hrun; [reflexivity | exact H1]).
  cbn. apply ed_exit; [|exact H1].
  destruct H as (_ & _ & H3). exact (H3 _ _ _ _ Et Etask).
Qed.

(** A reaction only queues or performs exits that were already queued or
    that its event asks for. *)
Lemma caused_event (Ok : Z -> option jsstring -> Prop) ev :
  (forall c r, Requests ev c r -> Ok c r) ->
  preserves (ExitDiscipline Ok) (handler ev).
Proof.
  intros HOk.
  assert (preserves (ExitDiscipline Ok) allSettled) by apply ed_settled.
  assert (preserves (ExitDiscipline Ok) resolveHttp) by apply ed_resolveHttp.
  assert (preserves (ExitDiscipline Ok) resolveChild) by apply ed_resolveChild.
  every_handler (ExitDiscipline Ok) ltac:(ed_leaf).
  assert (forall id, preserves (ExitDiscipline Ok) (fireTimer id)) as Hfire.
  { intros id. apply caused_fire. intros t Ht.
    destruct t; cbn in *; try discriminate; assumption. }
  destruct ev; cbn [handler];
    unfold initializeSupervisor_resume, initializeSupervisor_catch, onError,
      onProcessSignal, onUncaughtException, onUnhandledRejection.
  - carry ltac:(ed_leaf).
  - apply preserves_bind; [ed_leaf|]. intros _. apply ed_exit, HOk. constructor.
  - destruct ch; auto.
  - destruct (decide (code = Some 0)) as [->|Hne].
    + assert (preserves (ExitDiscipline Ok)
                (gracefulShutdown 0 (js "Claude completed successfully")))
        by (apply ed_shutdown, HOk; constructor).
      unfold emitExit, onExit. carry ltac:(ed_leaf).
    + assert (forall n, preserves (ExitDiscipline Ok)
                (gracefulShutdown 1
                   (js "Claude failed after " ++ number_to_string n ++ js " restarts")))
        by (intros n; apply ed_shutdown, HOk; constructor; exact Hne).
      assert (preserves (ExitDiscipline Ok) handleClaudeFailure)
        by (unfold handleClaudeFailure; carry ltac:(ed_leaf)).
      unfold emitExit, onExit. carry ltac:(ed_leaf).
  - assert (forall n, preserves (ExitDiscipline Ok)
              (gracefulShutdown 1
                 (js "Claude failed after " ++ number_to_string n ++ js " restarts")))
      by (intros n; apply ed_shutdown, HOk; constructor).
    unfold handleClaudeFailure. carry ltac:(ed_leaf).
  - apply Hfire.
  - carry ltac:(ed_leaf).
  - destruct s; apply ed_shutdown, HOk; constructor.
  - apply ed_shutdown, HOk; constructor.
  - apply ed_shutdown, HOk; constructor.
  - intros w Hw. rewrite exec_bind, handleHealthRequest_pure.
    unfold handleHealthRequest, eval.
    destruct (req_url req) as [message|pathname] eqn:Eurl.
    + cbn. apply ed_shutdown; [|exact Hw]. apply HOk. constructor. exact Eurl.
    + unfold bind. destruct (healthResponse _ _ w). exact Hw.
Qed.

Lemma caused_boot_script env_session arg now :
  ExitDiscipline (Caused env_session arg []) (boot env_session arg now).
Proof.
  assert (ExitDiscipline (Caused env_session arg [])
            (mkWorld (initialState env_session arg now) now [] ∅ 0%nat false
               None [] None)) as Hbase.
  { repeat split; cbn; discriminate. }
  unfold boot. destruct (startupInvalid env_session arg) eqn:E.
  - apply initialize_preserves; [apply ED_view | | | exact Hbase].
    + apply ed_exit. left. repeat split. exact E.
    + apply ed_frame. intros w. repeat split; reflexivity.
  - unfold startupInvalid in E. cbn zeta in E.
    apply orb_false_elim in E as [E1 E2].
    unfold initializeSupervisor. rewrite exec_bind.
    change (eval (read sessionId) _) with (or_default env_session (js "unknown")).
    rewrite E1. rewrite exec_bind.
    change (eval (read claudeCommand) _) with (or_default arg []).
    rewrite E2. exact Hbase.
Qed.

Lemma caused_play env_session arg script :
  forall pre w,
    ExitDiscipline (Caused env_session arg pre) w ->
    ExitDiscipline (Caused env_session arg (pre ++ script)) (play w script).
Proof.
  induction script as [|[ev now] script IH]; intros pre w H.
  - rewrite app_nil_r. exact H.
  - change (play w ((ev, now) :: script)) with (play (dispatch ev now w) script).
    replace (pre ++ (ev, now) :: script) with ((pre ++ [(ev, now)]) ++ script)
      by (rewrite <- app_assoc; reflexivity).
    apply IH. unfold dispatch. apply caused_event.
    + intros c r Hr. right. exists ev, now. split; [|exact Hr].
      apply in_or_app. right. left. reflexivity.
    + apply (exitDiscipline_mono (Caused env_session arg pre)).
      * intros c r [Hc|(ev' & now' & Hin & Hr)]; [left; exact Hc|].
        right. exists ev', now'. split; [|exact Hr].
        apply in_or_app. left. exact Hin.
      * exact H.
Qed.

Lemma exit_has_cause_in_run env_session arg now0 script w c r :
  run (boot env_session arg now0) script = Some w ->
  exited w = Some (c, r) -> Caused env_session arg script c r.
Proof.
  intros Hrun He. apply run_play in Hrun. subst w.
  pose proof (caused_play env_session arg script [] _
                (caused_boot_script env_session arg now0)) as (H1 & _).
  apply (H1 c r He).
Qed.

Lemma boot_exit env_session arg now :
  exited (boot env_session arg now)
  = if startupInvalid env_session arg then Some (1, None) else None.
Proof.
  unfold boot, startupInvalid, initializeSupervisor. cbn zeta.
  rewrite exec_bind.
  change (eval (read sessionId) _) with (or_default env_session (js "unknown")).
  destruct (negb (truthy (or_default env_session (js "unknown")))
            || jsstring_eqb (or_default env_session (js "unknown")) (js "unknown"))
    eqn:E1; [reflexivity|].
  rewrite exec_bind.
  change (eval (read claudeCommand) _) with (or_default arg []).
  cbn [orb].
  destruct (negb (truthy (or_default arg []))); reflexivity.
Qed.

Lemma listenError_exits w :
  exited w = None -> exited (exec (handler EvListenError) w) = Some (1, None).
Proof.
  intros H. cbn [handler].
  unfold initializeSupervisor_catch, process_exit, exec, bind. simpl.
  rewrite H. reflexivity.
Qed.

Lemma canAttemptRestart_eval w :
  eval canAttemptRestart w
  = negb (restartCount (st w) >=? CONFIG.MAX_RESTARTS)
    && negb (Z.of_nat
               (length
                  (List.filter
                     (fun timestamp => clock w - timestamp <? CONFIG.RESTART_WINDOW_MS)
                     (restartTimestamps (st w))))
             >=? CONFIG.MAX_RESTARTS).
Proof.
  unfold canAttemptRestart, eval, bind, read, Date_now, ret. cbn.
  repeat case_match; reflexivity.
Qed.

Lemma onExit_failure_requests w code :
  shuttingDown (st w) = false -> code <> Some 0 ->
  if eval canAttemptRestart w
  then shuttingDown (st (exec (onExit code) w)) = false
  else exitCode (st (exec (onExit code) w)) = Some 1.
Proof.
  intros H Hne. unfold onExit. rewrite exec_bind. cbv beta. rewrite exec_bind.
  set (w1 := exec (write (set_streamActive false)) w).
  change (eval (read shuttingDown) w1) with (shuttingDown (st w)). rewrite H.
  change (exec (read shuttingDown) w1) with w1.
  assert (eval canAttemptRestart w1 = eval canAttemptRestart w) as Hsame.
  { rewrite !canAttemptRestart_eval. reflexivity. }
  pose proof (handleClaudeFailure_requests w1 H) as Hf. rewrite Hsame in Hf.
  assert (exec
            match code with
            | Some 0 => gracefulShutdown 0 (js "Claude completed successfully")
            | _ => handleClaudeFailure
            end w1 = exec handleClaudeFailure w1) as ->.
  { destruct code as [[| |]|]; try reflexivity. congruence. }
  destruct (eval canAttemptRestart w); [exact Hf | apply Hf].
Qed.

(** C4, as the code has it.  When the process exits, its status and the
    reason it logs are those of one of the exits written in the source, and
    the status is 0 exactly for the reasons of a completed child, of SIGTERM
    and of SIGINT.  Every exit has its cause in the run: either the startup
    validation failed, or an event of the run asks for this status and
    reason; so a status 0 means that a child exited with code 0 or that
    SIGTERM or SIGINT arrived, and a status 1 that the validation failed,
    the status server did not start, a child failed, or an exception or
    rejection was not handled.  While no shutdown is in progress each
    trigger records the status that goes with it: 0 for a child that exits
    with code 0 and for the two signals; 1 for an uncaught exception and an
    unhandled rejection; and for a child that fails, by an exit with any
    other code or by an error, 1 when [canAttemptRestart] refuses and no
    shutdown at all when it allows a restart.  Once a shutdown is in
    progress no event changes the latch or the recorded status.  A failed
    startup validation exits at once with status 1, a passed one does not
    exit, and a status server that does not start exits with status 1. *)
Theorem exit_status_has_cause :
  (forall (w : World) (c : Z) (r : option jsstring),
     reachable w -> exited w = Some (c, r) ->
     ExitCause c r /\
     (c = 0 \/ c = 1) /\
     (c = 0 <-> r = Some (js "Claude completed successfully") \/
                r = Some (js "SIGTERM received") \/
                r = Some (js "SIGINT received"))) /\
  (forall env_session arg now0 script w c r,
     run (boot env_session arg now0) script = Some w ->
     exited w = Some (c, r) ->
     Caused env_session arg script c r /\
     (c = 0 ->
      exists ev now, In (ev, now) script /\
        ((exists p, ev = EvChildExit p (Some 0)) \/
         (exists s, ev = EvProcessSignal s))) /\
     (c = 1 ->
      startupInvalid env_session arg = true \/
      exists ev now, In (ev, now) script /\
        (ev = EvListenError \/
         (exists p code, ev = EvChildExit p code /\ code <> Some 0) \/
         (exists p, ev = EvChildError p) \/
         (exists message, ev = EvUncaughtException message) \/
         (exists reason, ev = EvUnhandledRejection reason) \/
         (exists req message,
            ev = EvHealthRequest req /\ req_url req = UrlThrows message)))) /\
  (forall w : World,
     shuttingDown (st w) = false ->
     exitCode (st (exec (onExit (Some 0)) w)) = Some 0 /\
     (forall s, exitCode (st (exec (onProcessSignal s) w)) = Some 0) /\
     (forall m, exitCode (st (exec (onUncaughtException m) w)) = Some 1) /\
     (forall m, exitCode (st (exec (onUnhandledRejection m) w)) = Some 1) /\
     (if eval canAttemptRestart w
      then shuttingDown (st (exec handleClaudeFailure w)) = false
      else exitCode (st (exec handleClaudeFailure w)) = Some 1) /\
     (forall code, code <> Some 0 ->
        if eval canAttemptRestart w
        then shuttingDown (st (exec (onExit code) w)) = false
        else exitCode (st (exec (onExit code) w)) = Some 1) /\
     (if eval canAttemptRestart w
      then shuttingDown (st (exec onError w)) = false
      else exitCode (st (exec onError w)) = Some 1)) /\
  (forall (w : World) (ev : Event),
     shuttingDown (st w) = true ->
     shuttingDown (st (exec (handler ev) w)) = true /\
     exitCode (st (exec (handler ev) w)) = exitCode (st w)) /\
  (forall env_session arg now,
     exited (boot env_session arg now)
     = if startupInvalid env_session arg then Some (1, None) else None) /\
  (forall w : World,
     exited w = None -> exited (exec (handler EvListenError) w) = Some (1, None)).
Proof.
  split; [|split; [|split; [|split; [|split;
    [exact boot_exit | exact listenError_exits]]]]].
  - intros w c r Hw He. destruct (reachable_caused w Hw) as (H1 & _ & _).
    specialize (H1 c r He). split; [exact H1|].
    destruct H1; (split; [auto|]); split; auto;
      try discriminate; intros [H|[H|H]]; discriminate.
  - intros env_session arg now0 script w c r Hrun He.
    pose proof (exit_has_cause_in_run _ _ _ _ _ _ _ Hrun He) as Hc.
    split; [exact Hc|]. split.
    + intros ->. destruct Hc as [(_ & Hc & _)|(ev & now & Hin & Hr)];
        [discriminate|].
      exists ev, now. split; [exact Hin|].
      inversion Hr; subst; eauto.
    + intros ->. destruct Hc as [(Hc & _)|(ev & now & Hin & Hr)];
        [left; exact Hc|].
      right. exists ev, now. split; [exact Hin|].
      inversion Hr; subst; eauto 10.
  - intros w H.
    split; [apply (onExit_success_requests w H)|].
    split; [intros []; apply (gracefulShutdown_commits 0 _ w H)|].
    split; [intros m; apply (gracefulShutdown_commits 1 _ w H)|].
    split; [intros m; apply (gracefulShutdown_commits 1 _ w H)|].
    pose proof (handleClaudeFailure_requests w H) as Hf.
    split; [destruct (eval canAttemptRestart w); [exact Hf | apply Hf]|].
    split; [intros code Hne; apply (onExit_failure_requests w code H Hne)|].
    unfold onError. destruct (eval canAttemptRestart w); [exact Hf | apply Hf].
  - intros w ev H.
    apply (sealed_handler (exitCode (st w)) ev w). split; [exact H | reflexivity].
Qed.

Lemma exit_status_has_cause_witness :
  ExitCause 0 (Some (js "SIGTERM received")) /\
  Caused (Some (js "session-1")) (Some (js "What is 2+2?"))
    ((EvListening, 1010) :: Scenario.signal_then_fault)
    0 (Some (js "SIGTERM received")).
Proof.
  destruct exit_status_has_cause as (Hexit & Hrun & _).
  split.
  - apply (Hexit (play Scenario.started Scenario.signal_then_fault) 0
             (Some (js "SIGTERM received"))).
    + apply (run_reachable Scenario.started Scenario.signal_then_fault).
      * exact started_reachable.
      * vm_compute. reflexivity.
    + vm_compute. reflexivity.
  - apply (Hrun (Some (js "session-1")) (Some (js "What is 2+2?")) 1000
             ((EvListening, 1010) :: Scenario.signal_then_fault)
             (play Scenario.started Scenario.signal_then_fault)).
    + vm_compute. reflexivity.
    + vm_compute. reflexivity.
Defined.

(** ** What a shutdown leaves queued *)

(** The timers after a shutdown request that is not latched out: the hang
    detection interval is cancelled, and the request queues its SIGKILL
    timeout, when it signals the child, and its shutdown timeout. *)
Lemma gracefulShutdown_timers w c r :
  shuttingDown (st w) = false ->
  timers (exec (gracefulShutdown c r) w)
  = let cleared := match hangDetectionInterval (st w) with
                   | Some h => delete h (timers w)
                   | None => timers w
                   end in
    let timeout := mkTimer (CleanupTimeout c r)
                     (clock w + CONFIG.GRACEFUL_SHUTDOWN_TIMEOUT_MS) None in
    match claudeProcess (st w) with
    | Some p =>
        if eval (child_killed p) w
        then <[nextTimer w := timeout]> cleared
        else <[S (nextTimer w) := timeout]>
               (<[nextTimer w := mkTimer (ForceKill p)
                                   (clock w + CONFIG.SIGKILL_DELAY_MS) None]> cleared)
    | None => <[nextTimer w := timeout]> cleared
    end.
Proof.
  intros Hsd.
  unfold gracefulShutdown, allSettled, finalExit, process_exit, setTimeout, arm,
    clearTimer, kill, child_killed, emit, put_cleanup, get_cleanup,
    exec, eval, bind, read, write, skip, ret.
  simpl. rewrite Hsd. simpl.
  repeat (case_match; simplify_eq/=); try reflexivity; try congruence.
Qed.

Lemma gracefulShutdown_children w c r :
  shuttingDown (st w) = false ->
  claudeProcess (st (exec (gracefulShutdown c r) w)) = claudeProcess (st w) /\
  children (exec (gracefulShutdown c r) w)
  = match claudeProcess (st w) with
    | Some p => if eval (child_killed p) w then children w
                else children (exec (kill p SIGTERM) w)
    | None => children w
    end.
Proof.
  intros Hsd.
  unfold gracefulShutdown, allSettled, finalExit, process_exit, setTimeout, arm,
    clearTimer, kill, child_killed, emit, put_cleanup, get_cleanup,
    exec, eval, bind, read, write, skip, ret.
  simpl. rewrite Hsd. simpl.
  repeat (case_match; simplify_eq/=); split; try reflexivity; try congruence.
Qed.

Lemma spent_same {A} (m : M A) :
  (forall w, shuttingDown (st (exec m w)) = shuttingDown (st w) /\
             claudeProcess (st (exec m w)) = claudeProcess (st w) /\
             children (exec m w) = children w) ->
  preserves Spent m.
Proof.
  intros Hm w H. destruct (Hm w) as (E1 & E2 & E3).
  unfold Spent. rewrite E1, E2, E3. exact H.
Qed.

Lemma spent_kill p s : preserves Spent (kill p s).
Proof.
  intros w H Hsd q c Hq Hc. unfold kill, exec in *.
  destruct (children w !! p) as [c0|] eqn:Hp; [|exact (H Hsd q c Hq Hc)].
  destruct (running c0) eqn:Hr; simpl in *; [|exact (H Hsd q c Hq Hc)].
  destruct (decide (q = p)) as [->|Hne].
  - rewrite list_lookup_insert_eq in Hc by (eapply lookup_lt_Some, Hp).
    injection Hc as <-. left. reflexivity.
  - rewrite list_lookup_insert_ne in Hc by congruence.
    exact (H Hsd q c Hq Hc).
Qed.

Lemma spent_reap p : preserves Spent (reap p).
Proof.
  intros w H Hsd q c Hq Hc. unfold reap, exec in *.
  destruct (children w !! p) as [c0|] eqn:Hp; [|exact (H Hsd q c Hq Hc)].
  simpl in *. destruct (decide (q = p)) as [->|Hne].
  - rewrite list_lookup_insert_eq in Hc by (eapply lookup_lt_Some, Hp).
    injection Hc as <-. right. reflexivity.
  - rewrite list_lookup_insert_ne in Hc by congruence.
    exact (H Hsd q c Hq Hc).
Qed.

Lemma spent_spawnClaudeProcess : preserves Spent spawnClaudeProcess.
Proof.
  intros w H. unfold spawnClaudeProcess. rewrite exec_bind.
  change (eval (read shuttingDown) w) with (shuttingDown (st w)).
  change (exec (read shuttingDown) w) with w.
  destruct (shuttingDown (st w)) eqn:Hsd; [exact H|].
  intros Hsd'. exfalso. revert Hsd'.
  unfold exec, bind, read, write, spawn, Date_now. simpl. rewrite Hsd. discriminate.
Qed.

Lemma spent_shutdown c r : preserves Spent (gracefulShutdown c r).
Proof.
  intros w H. destruct (shuttingDown (st w)) eqn:Hsd.
  { rewrite gracefulShutdown_latched; assumption. }
  destruct (gracefulShutdown_children w c r Hsd) as [Ecp Ech].
  intros _ q c0 Hq Hc. rewrite Ecp in Hq. rewrite Ech, Hq in Hc.
  unfold child_killed, eval in Hc. simpl in Hc.
  destruct (children w !! q) as [c1|] eqn:Hc1.
  - destruct (killed c1) eqn:Hk.
    + rewrite Hc1 in Hc. injection Hc as <-. left. exact Hk.
    + unfold kill, exec in Hc. rewrite Hc1 in Hc.
      destruct (running c1) eqn:Hr; simpl in Hc.
      * rewrite list_lookup_insert_eq in Hc by (eapply lookup_lt_Some, Hc1).
        injection Hc as <-. left. reflexivity.
      * rewrite Hc1 in Hc. injection Hc as <-. right. exact Hr.
  - unfold kill, exec in Hc. rewrite Hc1 in Hc. simpl in Hc. congruence.
Qed.

Ltac spent_leaf :=
  first [ apply spent_kill
        | apply spent_reap
        | apply spent_same; intro;
          cbv [exec read write Date_now emit process_exit arm setTimeout
               setInterval clearTimer child_killed get_cleanup put_cleanup
               skip ret];
          cbn beta iota; repeat case_match; repeat split; reflexivity ].

Lemma spent_handler ev : preserves Spent (handler ev).
Proof.
  pose proof spent_spawnClaudeProcess. pose proof spent_shutdown.
  every_handler Spent ltac:(spent_leaf). auto.
Qed.

Lemma reachable_spent w : reachable w -> Spent w.
Proof.
  induction 1 as [e a now | w ev now Hw IH Hen].
  - unfold boot.
    assert (preserves Spent initializeSupervisor) as Hi
      by (unfold initializeSupervisor; carry ltac:(spent_leaf)).
    apply Hi. intros Hsd. discriminate.
  - unfold dispatch. apply spent_handler. exact IH.
Qed.

(** [if (!child.killed) child.kill('SIGKILL')] on a child that cannot be
    signalled any more delivers nothing. *)
Lemma spent_sigkill w p :
  Spent w -> shuttingDown (st w) = true -> claudeProcess (st w) = Some p ->
  let w' := exec (if eval (child_killed p) w then skip else kill p SIGKILL) w in
  children w' = children w /\
  (trace w' = trace w \/ trace w' = trace w ++ [KillCall p SIGKILL false]).
Proof.
  intros H Hsd Hp. cbn zeta.
  unfold exec, eval, child_killed, kill, skip, ret. simpl.
  destruct (children w !! p) as [c|] eqn:Hc; simpl.
  - destruct (killed c) eqn:Hk; simpl; [split; [|left]; reflexivity|].
    rewrite Hc. destruct (H Hsd p c Hp Hc) as [Hk'|Hr]; [congruence|].
    rewrite Hr. simpl. split; [|right]; reflexivity.
  - rewrite Hc. split; [|left]; reflexivity.
Qed.

Lemma settle_frame w :
  children (exec (resolveChild ;;; allSettled) w) = children w /\
  trace (exec (resolveChild ;;; allSettled) w) = trace w.
Proof.
  unfold resolveChild, allSettled, finalExit, process_exit, get_cleanup,
    put_cleanup, exec, bind, skip, ret.
  simpl. repeat (case_match; simplify_eq/=); split; reflexivity.
Qed.

Lemma no_new_delivery (tr tr' : list Effect) p :
  tr' = tr \/ tr' = tr ++ [KillCall p SIGKILL false] ->
  forall q s, In (KillCall q s true) tr' -> In (KillCall q s true) tr.
Proof.
  intros [->| ->] q s Hin; [exact Hin|].
  apply in_app_or in Hin as [Hin|[Heq|[]]]; [exact Hin | discriminate].
Qed.

Lemma hangSigkill_spent w :
  Spent w -> shuttingDown (st w) = true ->
  children (exec hangSigkillCallback w) = children w /\
  forall q s, In (KillCall q s true) (trace (exec hangSigkillCallback w)) ->
              In (KillCall q s true) (trace w).
Proof.
  intros H Hsd. unfold hangSigkillCallback. rewrite exec_bind.
  change (eval (read claudeProcess) w) with (claudeProcess (st w)).
  change (exec (read claudeProcess) w) with w.
  destruct (claudeProcess (st w)) as [p|] eqn:Hp; [|split; [reflexivity | auto]].
  rewrite exec_bind. change (exec (child_killed p) w) with w.
  destruct (spent_sigkill w p H Hsd Hp) as [Hc Ht].
  split; [exact Hc | exact (no_new_delivery _ _ p Ht)].
Qed.

Lemma forceKill_spent w :
  Spent w -> shuttingDown (st w) = true ->
  children (exec forceKillCallback w) = children w /\
  forall q s, In (KillCall q s true) (trace (exec forceKillCallback w)) ->
              In (KillCall q s true) (trace w).
Proof.
  intros H Hsd. unfold forceKillCallback. rewrite exec_bind.
  change (eval (read claudeProcess) w) with (claudeProcess (st w)).
  change (exec (read claudeProcess) w) with w.
  destruct (claudeProcess (st w)) as [p|] eqn:Hp; [|split; [reflexivity | auto]].
  rewrite exec_bind. change (exec (child_killed p) w) with w. cbv beta.
  rewrite exec_bind. cbv beta.
  destruct (spent_sigkill w p H Hsd Hp) as [Hc Ht]. cbn zeta in Hc, Ht.
  set (w1 := exec (if eval (child_killed p) w then skip else kill p SIGKILL) w) in *.
  destruct (settle_frame w1) as [Hc1 Ht1].
  split.
  - rewrite <- Hc. exact Hc1.
  - intros q s. change (exec (resolveChild ;;; allSettled) w1) with
      (exec (resolveChild ;;; allSettled) w1). rewrite Ht1.
    exact (no_new_delivery _ _ p Ht q s).
Qed.

Lemma forceKill_then_settles w :
  match claudeProcess (st w) with
  | Some _ => exec forceKillCallback w
              = exec (resolveChild ;;; allSettled) (exec hangSigkillCallback w)
  | None => exec forceKillCallback w = w
  end.
Proof.
  unfold forceKillCallback, hangSigkillCallback.
  rewrite !exec_bind.
  change (eval (read claudeProcess) w) with (claudeProcess (st w)).
  change (exec (read claudeProcess) w) with w.
  destruct (claudeProcess (st w)) as [p|]; [|reflexivity].
  rewrite !exec_bind. change (exec (child_killed p) w) with w.
  reflexivity.
Qed.

(** C5, as the code has it.  With [shuttingDown] true, the callback of the
    restart delay does nothing and a tick of the hang detector only cancels
    the stored interval.  The other suspended actions never read
    [shuttingDown] and run the same whatever its value: the SIGKILL timeout
    of [killHangingProcess] calls [kill('SIGKILL')] on the current child
    when that child's [killed] flag is unset and does nothing when it is
    set, the SIGKILL timeout of [gracefulShutdown] does the same and then
    marks the cleanup task of the child as done and runs the completion
    check of the cleanup, and a shutdown timeout exits the process with
    the status and reason it was armed with.  A shutdown request that is not
    latched out cancels the hang detection interval and queues exactly its
    own SIGKILL timeout, when there is a current child whose [killed] flag
    is not set, and its own shutdown timeout, which carries the status and
    reason of the request.
    And in a reachable world with [shuttingDown] true the current child
    has its [killed] flag set or its process is gone, so that neither
    SIGKILL timeout delivers a signal or changes a child. *)
Theorem suspended_actions_on_resume (w : World) :
  shuttingDown (st w) = true ->
  exec restartCallback w = w /\
  exec hangCheck w = exec (clearTimer (hangDetectionInterval (st w))) w /\
  oblivious hangSigkillCallback /\
  oblivious forceKillCallback /\
  (forall code reason, oblivious (cleanupTimeoutCallback code reason)) /\
  (forall p c, claudeProcess (st w) = Some p -> children w !! p = Some c ->
     if killed c then exec hangSigkillCallback w = w
     else trace (exec hangSigkillCallback w) = trace w ++ [KillCall p SIGKILL (running c)]) /\
  (forall code reason, exited w = None ->
     exited (exec (cleanupTimeoutCallback code reason) w) = Some (code, Some reason)) /\
  (match claudeProcess (st w) with
   | Some _ => exec forceKillCallback w
               = exec (resolveChild ;;; allSettled) (exec hangSigkillCallback w)
   | None => exec forceKillCallback w = w
   end) /\
  (forall (w0 : World) (c : Z) (r : jsstring),
     shuttingDown (st w0) = false ->
     timers (exec (gracefulShutdown c r) w0)
     = let cleared := match hangDetectionInterval (st w0) with
                      | Some h => delete h (timers w0)
                      | None => timers w0
                      end in
       let timeout := mkTimer (CleanupTimeout c r)
                        (clock w0 + CONFIG.GRACEFUL_SHUTDOWN_TIMEOUT_MS) None in
       match claudeProcess (st w0) with
       | Some p =>
           if eval (child_killed p) w0
           then <[nextTimer w0 := timeout]> cleared
           else <[S (nextTimer w0) := timeout]>
                  (<[nextTimer w0 := mkTimer (ForceKill p)
                                       (clock w0 + CONFIG.SIGKILL_DELAY_MS) None]>
                     cleared)
       | None => <[nextTimer w0 := timeout]> cleared
       end) /\
  (reachable w ->
     (forall p c, claudeProcess (st w) = Some p -> children w !! p = Some c ->
        killed c = true \/ running c = false) /\
     children (exec hangSigkillCallback w) = children w /\
     children (exec forceKillCallback w) = children w /\
     (forall p s, In (KillCall p s true) (trace (exec hangSigkillCallback w)) ->
                  In (KillCall p s true) (trace w)) /\
     (forall p s, In (KillCall p s true) (trace (exec forceKillCallback w)) ->
                  In (KillCall p s true) (trace w))).
Proof.
  intros H.
  split; [apply restart_latched, H|].
  split; [apply hangCheck_latched, H|].
  split; [apply hangSigkill_oblivious|].
  split; [apply forceKill_oblivious|].
  split; [apply cleanupTimeout_oblivious|].
  split.
  { intros p c Hp Hc. destruct (killed c) eqn:Hk.
    - eapply hangSigkill_spares; eassumption.
    - eapply hangSigkill_kills; eassumption. }
  split; [intros code reason; apply cleanupTimeout_exits|].
  split; [apply forceKill_then_settles|].
  split; [intros w0 c r Hsd; apply gracefulShutdown_timers, Hsd|].
  intros Hw. pose proof (reachable_spent w Hw) as Hs.
  destruct (hangSigkill_spent w Hs H) as [H1 H2].
  destruct (forceKill_spent w Hs H) as [H3 H4].
  split; [exact (Hs H)|]. repeat split; assumption.
Qed.

Lemma suspended_actions_on_resume_witness :
  shuttingDown (st Scenario.signalled) = true /\
  exec restartCallback Scenario.signalled = Scenario.signalled.
Proof.
  split; [reflexivity|].
  destruct (suspended_actions_on_resume Scenario.signalled) as (H1 & _);
    [reflexivity | exact H1].
Defined.

(** ** The window test of the restart policy *)

Lemma reachable_count w : reachable w -> CountInv w.
Proof.
  induction 1 as [env_session arg now | w ev now Hw IH He].
  - apply count_boot.
  - apply count_handler. exact IH.
Qed.

Lemma filter_length_le {A} (f : A -> bool) (l : list A) :
  (length (List.filter f l) <= length l)%nat.
Proof.
  induction l as [|a l IH]; cbn; [lia|]. destruct (f a); cbn; lia.
Qed.

(** In a reachable world the restart history is as long as the restart
    count, so the window test of [canAttemptRestart] never decides: the
    function answers true exactly when [restartCount] is below
    [MAX_RESTARTS], whatever the age of the restarts. *)
Theorem window_test_never_decides (w : World) :
  reachable w ->
  eval canAttemptRestart w = (restartCount (st w) <? CONFIG.MAX_RESTARTS).
Proof.
  intros Hw. pose proof (reachable_count w Hw) as Hc. unfold CountInv in Hc.
  unfold canAttemptRestart, eval, bind, read, Date_now, ret. cbn.
  destruct (restartCount (st w) >=? CONFIG.MAX_RESTARTS) eqn:E1; cbn.
  - symmetry. apply Z.ltb_ge. lia.
  - pose proof (filter_length_le
                  (fun timestamp => clock w - timestamp <? CONFIG.RESTART_WINDOW_MS)
                  (restartTimestamps (st w))) as Hle.
    match goal with |- context [if ?b then _ else _] => destruct b eqn:E2 end; cbn.
    + exfalso. lia.
    + symmetry. apply Z.ltb_lt. lia.
Qed.

Lemma window_test_never_decides_witness :
  eval canAttemptRestart (play Scenario.started Scenario.plain_failure) = true.
Proof.
  rewrite (window_test_never_decides (play Scenario.started Scenario.plain_failure)).
  - reflexivity.
  - apply (run_reachable Scenario.started Scenario.plain_failure).
    + exact started_reachable.
    + vm_compute. reflexivity.
Defined.

(** ** The snippet *)

Lemma trimStart_head s :
  match trimStart s with
  | [] => True
  | c :: _ => is_trimmed_unit c = false
  end.
Proof.
  induction s as [|c s IH]; cbn; [exact I|].
  destruct (is_trimmed_unit c) eqn:E; [exact IH | exact E].
Qed.

Lemma endsClean_trim s : endsClean (trim s).
Proof.
  unfold endsClean, trim, trimEnd. rewrite rev_involutive. apply trimStart_head.
Qed.

Lemma endsClean_tail c s : endsClean (c :: s) -> endsClean s.
Proof.
  unfold endsClean. cbn [rev]. destruct (rev s) as [|d r]; [intros _; exact I|].
  cbn. intros H. exact H.
Qed.

Lemma endsClean_drop k s : endsClean s -> endsClean (drop k s).
Proof.
  revert s. induction k as [|k IH]; intros s H; [rewrite drop_0; exact H|].
  destruct s as [|c s]; [exact H|]. cbn. apply IH. eapply endsClean_tail, H.
Qed.

Lemma snippet_data output :
  preserves SnippetInv (write (set_lastOutputLine (slice_last 100 (trim output)))).
Proof.
  intros w _. split; cbn.
  - apply slice_last_length.
  - apply endsClean_drop, endsClean_trim.
Qed.

Lemma snippet_handler ev : preserves SnippetInv (handler ev).
Proof.
  assert (forall o, preserves SnippetInv (onStdoutData o)) as H1
    by (intros o; unfold onStdoutData; pose proof (snippet_data o);
        carry ltac:(frame)).
  assert (forall o, preserves SnippetInv (onStderrData o)) as H2
    by (intros o; unfold onStderrData; pose proof (snippet_data o);
        carry ltac:(frame)).
  every_handler SnippetInv ltac:(frame). auto.
Qed.

Lemma snippet_boot env_session arg now : SnippetInv (boot env_session arg now).
Proof.
  unfold boot.
  assert (preserves SnippetInv initializeSupervisor) as H
    by (unfold initializeSupervisor; carry ltac:(frame)).
  apply H. split; cbn; [lia | exact I].
Qed.

(** In every reachable world [lastOutputLine] has at most 100 code units
    and does not end with white space or a line terminator. *)
Theorem snippet_is_short_and_ends_clean (w : World) :
  reachable w ->
  (length (lastOutputLine (st w)) <= 100)%nat /\
  endsClean (lastOutputLine (st w)).
Proof.
  induction 1 as [env_session arg now | w ev now Hw IH He].
  - apply snippet_boot.
  - apply snippet_handler. exact IH.
Qed.

Lemma snippet_is_short_and_ends_clean_witness :
  (length (lastOutputLine (st (play Scenario.started Scenario.line_then_failure))) <= 100)%nat.
Proof.
  apply snippet_is_short_and_ends_clean.
  apply (run_reachable Scenario.started Scenario.line_then_failure).
  - exact started_reachable.
  - vm_compute. reflexivity.
Defined.

(** ** Time stamps *)

Lemma Sorted_snoc (l : list Z) (x : Z) :
  Sorted Z.le l -> Forall (fun t => t <= x) l -> Sorted Z.le (l ++ [x]).
Proof.
  induction l as [|a l IH]; intros Hs Hf; cbn.
  - repeat constructor.
  - inversion Hs as [|? ? Hs' Hhd]; subst. inversion Hf as [|? ? Ha Hf']; subst.
    constructor; [apply IH; assumption|].
    destruct l as [|b l]; cbn; constructor.
    + exact Ha.
    + inversion Hhd; subst. assumption.
Qed.

Lemma timely_clock floor now w :
  Timely floor w -> clock w <= now -> Timely floor (set_clock now w).
Proof.
  intros (H1 & H2 & H3 & H4) Hn. repeat split; cbn; try assumption; [lia|].
  eapply Forall_impl; [exact H3|]. cbn. intros t Ht. lia.
Qed.

Lemma timely_handler floor ev : preserves (Timely floor) (handler ev).
Proof.
  assert (preserves (Timely floor) spawnClaudeProcess) as Hspawn.
  { intros w (H1 & H2 & H3 & H4).
    unfold spawnClaudeProcess, exec, bind, read. cbn.
    destruct (shuttingDown (st w)); repeat split; simpl; try assumption; lia. }
  assert (forall o, preserves (Timely floor) (onStdoutData o)) as Hout.
  { intros o w (H1 & H2 & H3 & H4). repeat split; simpl; try assumption; lia. }
  assert (forall o, preserves (Timely floor) (onStderrData o)) as Herr.
  { intros o w (H1 & H2 & H3 & H4). repeat split; simpl; try assumption; lia. }
  assert (preserves (Timely floor) recordRestartAttempt) as Hrec.
  { intros w (H1 & H2 & H3 & H4). repeat split; simpl; try assumption.
    - apply Forall_app. split; [exact H3|]. constructor; [lia | constructor].
    - apply Sorted_snoc; assumption. }
  every_handler (Timely floor) ltac:(frame). auto.
Qed.

Lemma timely_boot env_session arg now : Timely now (boot env_session arg now).
Proof.
  unfold boot.
  assert (preserves (Timely now) initializeSupervisor) as H
    by (unfold initializeSupervisor; carry ltac:(frame)).
  apply H. repeat split; cbn; try lia; constructor.
Qed.

Lemma clock_dispatch ev now w : clock (dispatch ev now w) = now.
Proof.
  unfold dispatch.
  assert (preserves (fun w' => clock w' = now) (handler ev)) as H
    by (every_handler (fun w' : World => clock w' = now) ltac:(frame); auto).
  apply H. reflexivity.
Qed.

Lemma clock_boot env_session arg now : clock (boot env_session arg now) = now.
Proof.
  unfold boot.
  assert (preserves (fun w' => clock w' = now) initializeSupervisor) as H
    by (unfold initializeSupervisor; carry ltac:(frame)).
  apply H. reflexivity.
Qed.

Lemma steady_step t0 ev now script :
  steady t0 ((ev, now) :: script) -> t0 <= now /\ steady now script.
Proof.
  unfold steady. cbn. intros H. inversion H as [|? ? Hs Hhd]; subst.
  inversion Hhd; subst. split; assumption.
Qed.

Lemma timely_play floor script :
  forall w, Timely floor w -> steady (clock w) script ->
            Timely floor (play w script).
Proof.
  induction script as [|[ev now] script IH]; intros w H Hs; [exact H|].
  apply steady_step in Hs as [Hnow Hs].
  change (play w ((ev, now) :: script)) with (play (dispatch ev now w) script).
  apply IH.
  - unfold dispatch. apply timely_handler, timely_clock; assumption.
  - rewrite clock_dispatch. exact Hs.
Qed.

Lemma identity_play sid cmd start script :
  forall w, Identity sid cmd start w -> Identity sid cmd start (play w script).
Proof.
  induction script as [|[ev now] script IH]; intros w H; [exact H|].
  change (play w ((ev, now) :: script)) with (play (dispatch ev now w) script).
  apply IH. unfold dispatch. apply identity_handler. exact H.
Qed.

(** Provided [Date.now()] never steps back (each reaction reads at least
    what the one before it read, the module load included), after any
    sequence of events the clock readings kept in the state are in order:
    [startTime] is the time of the load, [startTime <= lastOutputTs <= now],
    and the restart history is ascending and not after now; and a reaction
    that reads at least the current time does not move [lastOutputTs]
    backwards, the spawn of a new child included.  The proviso is needed:
    an output event stores whatever the clock reads. *)
Theorem timestamps_are_ordered
    (env_session arg : option jsstring) (now0 : Z) (script : list (Event * Z)) :
  steady now0 script ->
  let w := play (boot env_session arg now0) script in
  startTime (st w) = now0 /\
  now0 <= lastOutputTs (st w) /\
  lastOutputTs (st w) <= clock w /\
  Forall (fun t => t <= clock w) (restartTimestamps (st w)) /\
  Sorted Z.le (restartTimestamps (st w)) /\
  (forall ev now, clock w <= now ->
     lastOutputTs (st w) <= lastOutputTs (st (dispatch ev now w))) /\
  (forall p ch output now,
     lastOutputTs (st (dispatch (EvData p ch output) now w)) = now).
Proof.
  intros Hs. cbn zeta.
  set (w := play (boot env_session arg now0) script).
  assert (Timely now0 w) as (H1 & H2 & H3 & H4).
  { apply timely_play; [apply timely_boot|]. rewrite clock_boot. exact Hs. }
  assert (startTime (st w) = now0) as H0.
  { pose proof (identity_boot env_session arg now0) as Hb.
    apply (identity_play _ _ _ script) in Hb. apply Hb. }
  split; [exact H0|]. repeat split; try assumption.
  - intros ev now Hnow.
    assert (Timely (lastOutputTs (st w)) w) as Ht
      by (repeat split; try assumption; lia).
    unfold dispatch.
    apply (timely_clock _ now) in Ht; [|exact Hnow].
    apply (timely_handler _ ev) in Ht. apply Ht.
  - intros p ch output now. destruct ch; reflexivity.
Qed.

Lemma timestamps_are_ordered_witness :
  lastOutputTs (st (play (boot (Some (js "session-1")) (Some (js "What is 2+2?")) 1000)
                      ((EvListening, 1010) :: Scenario.plain_failure)))
  <= clock (play (boot (Some (js "session-1")) (Some (js "What is 2+2?")) 1000)
              ((EvListening, 1010) :: Scenario.plain_failure)).
Proof.
  destruct (timestamps_are_ordered (Some (js "session-1"))
              (Some (js "What is 2+2?")) 1000
              ((EvListening, 1010) :: Scenario.plain_failure))
    as (_ & _ & H & _); [|exact H].
  unfold steady, Scenario.plain_failure. cbn [List.map snd].
  repeat constructor; lia.
Defined.

(** ** The health endpoint *)

Lemma jsstring_eqb_true a b : jsstring_eqb a b = true <-> a = b.
Proof. unfold jsstring_eqb. apply bool_decide_eq_true. Qed.

Lemma jsstring_eqb_false a b : jsstring_eqb a b = false <-> a <> b.
Proof. unfold jsstring_eqb. apply bool_decide_eq_false. Qed.

Lemma health_status_200 pathname w :
  pathname = js "/health" \/ pathname = js "/debug" ->
  statusCode (eval (healthResponse (js "GET") pathname) w) = 200.
Proof.
  intros Hp. unfold healthResponse.
  replace (jsstring_eqb (js "GET") (js "GET")) with true
    by (symmetry; apply jsstring_eqb_true; reflexivity).
  cbn [negb].
  destruct (jsstring_eqb pathname (js "/health")) eqn:E1.
  { cbv [eval bind read Date_now ret childPid child_pid childNotKilled child_killed].
    destruct (claudeProcess (st w)) eqn:Ecp; cbn; rewrite ?Ecp; reflexivity. }
  destruct (jsstring_eqb pathname (js "/debug")) eqn:E2.
  { cbv [eval bind read Date_now ret child_pid child_killed].
    destruct (claudeProcess (st w)) eqn:Ecp; cbn; rewrite ?Ecp; reflexivity. }
  apply jsstring_eqb_false in E1, E2. destruct Hp; contradiction.
Qed.

Lemma healthResponse_routes (method pathname : jsstring) (w : World) :
  (method <> js "GET" ->
   eval (healthResponse method pathname) w = MethodNotAllowed) /\
  (method = js "GET" -> pathname <> js "/health" -> pathname <> js "/debug" ->
   eval (healthResponse method pathname) w = NotFound) /\
  (statusCode (eval (healthResponse method pathname) w) = 200 <->
   method = js "GET" /\ (pathname = js "/health" \/ pathname = js "/debug")).
Proof.
  split.
  { intros Hm. apply jsstring_eqb_false in Hm. unfold healthResponse.
    rewrite Hm. reflexivity. }
  split.
  { intros Hm H1 H2. apply jsstring_eqb_true in Hm.
    apply jsstring_eqb_false in H1, H2. unfold healthResponse.
    rewrite Hm, H1, H2. reflexivity. }
  split.
  - intros Hs. unfold healthResponse in Hs.
    destruct (jsstring_eqb method (js "GET")) eqn:Em; cbn [negb] in Hs;
      [|discriminate].
    apply jsstring_eqb_true in Em. split; [exact Em|].
    destruct (jsstring_eqb pathname (js "/health")) eqn:E1.
    + left. apply jsstring_eqb_true, E1.
    + destruct (jsstring_eqb pathname (js "/debug")) eqn:E2; [|discriminate].
      right. apply jsstring_eqb_true, E2.
  - intros [-> Hp]. apply health_status_200, Hp.
Qed.

(** [handleHealthRequest] changes nothing and answers the request, unless
    [url.parse] throws on the request target.  When it throws, nothing is
    answered and the exception, which no one catches, is handled as any
    uncaught exception: it requests a shutdown with exit code 1, so that
    one such request ends a supervisor that is not yet shutting down.
    Otherwise the answer is 405 to every method but GET, whatever the path;
    and to a GET, 200 on [/health] and on [/debug] and 404 on every other
    path. *)
Theorem health_endpoint_reads_and_routes (req : Request) (w : World) :
  (forall message,
     req_url req = UrlThrows message ->
     eval (handleHealthRequest req) w = inl message /\
     exec (handler (EvHealthRequest req)) w
     = exec (gracefulShutdown 1 (js "Uncaught exception: " ++ message)) w /\
     (shuttingDown (st w) = false ->
      shuttingDown (st (exec (handler (EvHealthRequest req)) w)) = true /\
      exitCode (st (exec (handler (EvHealthRequest req)) w)) = Some 1)) /\
  (forall pathname,
     req_url req = UrlPathname pathname ->
     exec (handler (EvHealthRequest req)) w = w /\
     exists response,
       eval (handleHealthRequest req) w = inr response /\
       (req_method req <> js "GET" -> response = MethodNotAllowed) /\
       (req_method req = js "GET" ->
        pathname <> js "/health" -> pathname <> js "/debug" ->
        response = NotFound) /\
       (statusCode response = 200 <->
        req_method req = js "GET" /\
        (pathname = js "/health" \/ pathname = js "/debug"))).
Proof.
  split.
  - intros message E.
    assert (eval (handleHealthRequest req) w = inl message) as Hv
      by (unfold handleHealthRequest; rewrite E; reflexivity).
    assert (exec (handler (EvHealthRequest req)) w
            = exec (gracefulShutdown 1 (js "Uncaught exception: " ++ message)) w)
      as Hx.
    { cbn [handler]. rewrite exec_bind, handleHealthRequest_pure, Hv. reflexivity. }
    split; [exact Hv|]. split; [exact Hx|].
    intros Hsd. rewrite Hx.
    destruct (gracefulShutdown_commits 1 (js "Uncaught exception: " ++ message) w Hsd)
      as (H1 & H2 & _).
    split; assumption.
  - intros pathname E.
    assert (eval (handleHealthRequest req) w
            = inr (eval (healthResponse (req_method req) pathname) w)) as Hv.
    { unfold handleHealthRequest, eval, bind. rewrite E.
      destruct (healthResponse (req_method req) pathname w). reflexivity. }
    split.
    + cbn [handler]. rewrite exec_bind, handleHealthRequest_pure, Hv. reflexivity.
    + eexists. split; [exact Hv|]. apply healthResponse_routes.
Qed.

Lemma health_data w :
  exists d,
    eval (healthResponse (js "GET") (js "/health")) w = HealthOk d /\
    h_uptime d = clock w - startTime (st w) /\
    h_startTime d = startTime (st w) /\
    h_silenceDuration d = clock w - lastOutputTs (st w) /\
    h_lastOutputTs d = lastOutputTs (st w) /\
    h_lastOutputLine d = lastOutputLine (st w) /\
    h_restartCount d = restartCount (st w) /\
    h_restartHistory d = restartTimestamps (st w) /\
    h_running d = eval childNotKilled w.
Proof.
  unfold healthResponse.
  replace (jsstring_eqb (js "GET") (js "GET")) with true
    by (symmetry; apply jsstring_eqb_true; reflexivity).
  replace (jsstring_eqb (js "/health") (js "/health")) with true
    by (symmetry; apply jsstring_eqb_true; reflexivity).
  cbn [negb].
  cbv [eval bind read Date_now ret childPid child_pid childNotKilled child_killed].
  destruct (claudeProcess (st w)) eqn:Ecp; cbn; rewrite ?Ecp; eexists; repeat split.
Qed.

(** Provided [Date.now()] never steps back up to the request, the
    snapshot of [GET /health] taken after any sequence of events reports a
    silence that is not negative and not longer than the uptime, and the
    uptime is the time since the module was loaded.  The endpoint does not
    clamp: whenever the clock reads less than [lastOutputTs], the
    [silenceDuration] it reports is negative. *)
Theorem health_snapshot_is_consistent
    (env_session arg : option jsstring) (now0 : Z) (script : list (Event * Z))
    (now : Z) :
  steady now0 script ->
  clock (play (boot env_session arg now0) script) <= now ->
  (exists d,
     eval (healthResponse (js "GET") (js "/health"))
       (set_clock now (play (boot env_session arg now0) script)) = HealthOk d /\
     0 <= h_silenceDuration d <= h_uptime d /\
     h_uptime d = now - now0 /\
     h_startTime d = now0) /\
  (forall w : World,
     clock w < lastOutputTs (st w) ->
     exists d,
       eval (healthResponse (js "GET") (js "/health")) w = HealthOk d /\
       h_silenceDuration d < 0).
Proof.
  intros Hs Hnow. split.
  - set (w := play (boot env_session arg now0) script) in *.
    assert (Timely now0 w) as Ht.
    { apply timely_play; [apply timely_boot|]. rewrite clock_boot. exact Hs. }
    apply (timely_clock _ now) in Ht; [|exact Hnow].
    destruct Ht as (H1 & H2 & _).
    assert (startTime (st w) = now0) as H0.
    { pose proof (identity_boot env_session arg now0) as Hb.
      apply (identity_play _ _ _ script) in Hb. apply Hb. }
    destruct (health_data (set_clock now w))
      as (d & Hd & Hu & Hst & Hsil & _).
    exists d. split; [exact Hd|]. rewrite Hu, Hst, Hsil.
    change (startTime (st (set_clock now w))) with (startTime (st w)).
    change (clock (set_clock now w)) with now in *.
    change (lastOutputTs (st (set_clock now w))) with (lastOutputTs (st w)) in *.
    rewrite H0. repeat split; lia.
  - intros w Hw.
    destruct (health_data w) as (d & Hd & _ & _ & Hsil & _).
    exists d. split; [exact Hd|]. rewrite Hsil. lia.
Qed.

Lemma health_snapshot_is_consistent_witness :
  exists d,
    eval (healthResponse (js "GET") (js "/health"))
      (set_clock 1500 (play (boot (Some (js "session-1"))
                               (Some (js "What is 2+2?")) 1000)
                         [(EvListening, 1010)])) = HealthOk d /\
    0 <= h_silenceDuration d <= h_uptime d.
Proof.
  destruct (health_snapshot_is_consistent (Some (js "session-1"))
              (Some (js "What is 2+2?")) 1000 [(EvListening, 1010)] 1500)
    as [(d & H1 & H2 & _) _].
  - unfold steady. cbn [List.map snd]. repeat constructor; lia.
  - vm_compute. discriminate.
  - exists d. split; assumption.
Defined.

(** *** A child that exits by itself *)

Lemma exited_kill p q s : preserves (ExitedUnsignalled p) (kill q s).
Proof.
  intros w (Hp & c & Hc & Hk & Hr). unfold kill, exec.
  destruct (children w !! q) as [c'|] eqn:Hq; [|split; [exact Hp | eauto]].
  destruct (running c') eqn:Hr'; (split; [exact Hp|]); simpl.
  - exists c. split; [|split; assumption].
    rewrite list_lookup_insert_ne; [exact Hc|].
    intros ->. rewrite Hq in Hc. injection Hc as ->. congruence.
  - exists c. repeat split; assumption.
Qed.

Lemma exited_after_exit p code (c0 : option Cleanup) :
  preserves (ExitedUnsignalled p)
    (onExit code ;;;
     match c0 with
     | Some c =>
         match childPending c with
         | Some (q, forceKillTimer) =>
             if bool_decide (q = p) then shutdownExitListener forceKillTimer else skip
         | None => skip
         end
     | None => skip
     end).
Proof.
  pose proof (exited_kill p) as Hkill.
  known (ExitedUnsignalled p) allSettled ltac:(unfold allSettled, finalExit; carry ltac:(frame)).
  known (ExitedUnsignalled p) resolveChild ltac:(unfold resolveChild; carry ltac:(frame)).
  known2 (ExitedUnsignalled p) gracefulShutdown
    ltac:(unfold gracefulShutdown; carry ltac:(frame)).
  known (ExitedUnsignalled p) handleClaudeFailure
    ltac:(unfold handleClaudeFailure, canAttemptRestart, scheduleRestart;
          carry ltac:(frame)).
  known1 (ExitedUnsignalled p) onExit ltac:(unfold onExit; carry ltac:(frame)).
  known1 (ExitedUnsignalled p) shutdownExitListener
    ltac:(unfold shutdownExitListener; carry ltac:(frame)).
  carry ltac:(frame).
Qed.

(** The [running] member of [GET /health] only looks at the [killed] flag
    of the current child.  When a child that was never sent a signal exits
    by itself, whatever its exit code, the snapshot taken after the exit
    has been handled still reports [running: true], although the process
    is gone. *)
Theorem health_reports_exited_child_as_running
    (w : World) (now : Z) (p : nat) (code : option Z) (c : ChildProcess) :
  claudeProcess (st w) = Some p ->
  children w !! p = Some c ->
  killed c = false ->
  let w' := dispatch (EvChildExit p code) now w in
  (exists c', children w' !! p = Some c' /\ running c' = false) /\
  exists d,
    eval (healthResponse (js "GET") (js "/health")) w' = HealthOk d /\
    h_running d = true.
Proof.
  intros Hp Hc Hk. cbn zeta.
  assert (ExitedUnsignalled p (dispatch (EvChildExit p code) now w)) as He.
  { unfold dispatch. cbn [handler]. unfold emitExit.
    rewrite exec_bind. cbv beta. rewrite exec_bind. cbv beta.
    apply exited_after_exit.
    unfold reap, exec, get_cleanup. simpl. rewrite Hc. simpl.
    split; [exact Hp|].
    eexists. split; [apply list_lookup_insert_eq; eapply lookup_lt_Some, Hc|].
    split; [exact Hk | reflexivity]. }
  destruct He as (Hp' & c' & Hc' & Hk' & Hr').
  split; [exists c'; split; assumption|].
  destruct (health_data (dispatch (EvChildExit p code) now w))
    as (d & Hd & _ & _ & _ & _ & _ & _ & _ & Hrun).
  exists d. split; [exact Hd|]. rewrite Hrun.
  unfold childNotKilled, eval, bind, read, child_killed, ret. simpl.
  rewrite Hp'. simpl. rewrite Hc'. simpl. rewrite Hk'. reflexivity.
Qed.

Lemma health_reports_exited_child_as_running_witness :
  exists d,
    eval (healthResponse (js "GET") (js "/health"))
      (dispatch (EvChildExit 0%nat (Some 1)) 2000 Scenario.started) = HealthOk d /\
    h_running d = true.
Proof.
  destruct (health_reports_exited_child_as_running Scenario.started 2000 0%nat
              (Some 1) (mkChild 0 false true)) as [_ H];
    [reflexivity | reflexivity | reflexivity | exact H].
Defined.

(** ** The hang detector *)

(** A tick of the hang detector while no shutdown is in progress.  It does
    nothing when there is no child, when the current child has already
    been sent a signal, and when the silence is at most
    [STREAM_TIMEOUT_MS]: a silence of exactly the timeout is not a hang.
    Past the timeout it calls [kill('SIGTERM')] on the child, arms the
    SIGKILL timeout [SIGKILL_DELAY_MS] ahead and cancels the stored
    interval, and writes nothing to the state. *)
Theorem hang_tick_threshold (w : World) :
  shuttingDown (st w) = false ->
  (claudeProcess (st w) = None -> exec hangCheck w = w) /\
  (forall p c,
     claudeProcess (st w) = Some p -> children w !! p = Some c ->
     (killed c = true -> exec hangCheck w = w) /\
     (killed c = false ->
      clock w - lastOutputTs (st w) <= CONFIG.STREAM_TIMEOUT_MS ->
      exec hangCheck w = w) /\
     (killed c = false ->
      clock w - lastOutputTs (st w) > CONFIG.STREAM_TIMEOUT_MS ->
      let w' := exec hangCheck w in
      st w' = st w /\
      trace w' = trace w ++ [KillCall p SIGTERM (running c)] /\
      timers w' =
        let armed := <[nextTimer w := mkTimer (HangSigkill p)
                                        (clock w + CONFIG.SIGKILL_DELAY_MS) None]>
                       (timers w) in
        match hangDetectionInterval (st w) with
        | Some h => delete h armed
        | None => armed
        end)).
Proof.
  intros Hsd. split.
  { intros Hp. unfold hangCheck, exec, bind, read. simpl. rewrite Hsd, Hp. reflexivity. }
  intros p c Hp Hc. split; [|split].
  - intros Hk. unfold hangCheck, exec, bind, read, child_killed. simpl.
    rewrite Hsd, Hp. simpl. rewrite Hc, Hk. reflexivity.
  - intros Hk Hle. unfold hangCheck, exec, bind, read, child_killed, Date_now. simpl.
    rewrite Hsd, Hp. simpl. rewrite Hc, Hk. simpl.
    destruct (clock w - lastOutputTs (st w) >? CONFIG.STREAM_TIMEOUT_MS) eqn:E;
      [apply Z.gtb_lt in E; lia | reflexivity].
  - intros Hk Hgt. cbn zeta.
    unfold hangCheck, killHangingProcess, exec, bind, read, child_killed, Date_now,
      kill, setTimeout, arm, clearTimer. simpl.
    rewrite Hsd, Hp. simpl. rewrite Hc, Hk. simpl.
    destruct (clock w - lastOutputTs (st w) >? CONFIG.STREAM_TIMEOUT_MS) eqn:E;
      [|rewrite Z.gtb_ltb in E; apply Z.ltb_ge in E; lia].
    rewrite Hp. simpl. rewrite Hc, Hk. simpl. rewrite Hc.
    destruct (running c); simpl; destruct (hangDetectionInterval (st w));
      repeat split.
Qed.

Lemma hang_tick_threshold_witness :
  exec hangCheck Scenario.started = Scenario.started.
Proof.
  destruct (hang_tick_threshold Scenario.started) as [_ H]; [reflexivity|].
  destruct (H 0%nat (mkChild 0 false true)) as (_ & H2 & _);
    [reflexivity | reflexivity |].
  apply H2; [reflexivity | vm_compute; discriminate].
Defined.

(** ** The forced kill *)

Lemma noEscalation_snoc tr e :
  noEscalation tr ->
  (forall p d, e = KillCall p SIGKILL d -> ~ delivered p tr) ->
  noEscalation (tr ++ [e]).
Proof.
  intros H He before p d after Heq.
  revert Heq. induction after as [|y after _] using rev_ind; intros Heq.
  - apply app_inj_tail in Heq as [-> ->]. eapply He. reflexivity.
  - rewrite app_comm_cons, app_assoc in Heq. apply app_inj_tail in Heq as [-> _].
    eapply H. reflexivity.
Qed.

Lemma delivered_snoc p tr e :
  delivered p (tr ++ [e]) -> delivered p tr \/ exists s, e = KillCall p s true.
Proof.
  intros [s Hin]. apply in_app_or in Hin as [Hin|[Heq|[]]].
  - left. exists s. exact Hin.
  - right. exists s. exact Heq.
Qed.

Lemma orderly_emit : preserves Orderly (emit ServerClose).
Proof.
  intros w [H1 H2]. split; simpl.
  - apply noEscalation_snoc; [exact H1 | discriminate].
  - intros p Hd. apply delivered_snoc in Hd as [Hd|[s Hs]]; [|discriminate].
    apply H2, Hd.
Qed.

Lemma orderly_spawn : preserves Orderly spawn.
Proof.
  intros w [H1 H2]. split; simpl.
  - apply noEscalation_snoc; [exact H1 | discriminate].
  - intros p Hd. apply delivered_snoc in Hd as [Hd|[s Hs]]; [|discriminate].
    destruct (H2 p Hd) as (c & Hc & Hk). exists c. split; [|exact Hk].
    apply lookup_app_l_Some, Hc.
Qed.

Lemma orderly_reap q : preserves Orderly (reap q).
Proof.
  intros w [H1 H2]. unfold reap, exec.
  destruct (children w !! q) as [c|] eqn:Hq; [|split; assumption].
  split; [exact H1|]. simpl. intros p Hd. destruct (H2 p Hd) as (c' & Hc' & Hk').
  destruct (decide (p = q)) as [->|Hne].
  - rewrite Hq in Hc'. injection Hc' as <-.
    eexists. split; [apply list_lookup_insert_eq; eapply lookup_lt_Some, Hq|].
    exact Hk'.
  - exists c'. split; [|exact Hk'].
    rewrite list_lookup_insert_ne; [exact Hc' | congruence].
Qed.

Lemma orderly_kill_when w q s c :
  Orderly w -> children w !! q = Some c ->
  (s = SIGKILL -> killed c = false) ->
  Orderly (exec (kill q s) w).
Proof.
  intros [H1 H2] Hq Hguard. unfold kill, exec. rewrite Hq.
  assert (s = SIGKILL -> ~ delivered q (trace w)) as Hfresh.
  { intros Hs Hd. destruct (H2 q Hd) as (c' & Hc' & Hk'). rewrite Hq in Hc'.
    injection Hc' as <-. rewrite (Hguard Hs) in Hk'. discriminate. }
  destruct (running c) eqn:Hr; split; simpl.
  - apply noEscalation_snoc; [exact H1|]. intros p d Heq.
    injection Heq as <- Hs _. apply Hfresh, Hs.
  - intros p Hd. apply delivered_snoc in Hd as [Hd|[s' Hs]].
    + destruct (H2 p Hd) as (c' & Hc' & Hk').
      destruct (decide (p = q)) as [->|Hne].
      * eexists. split; [apply list_lookup_insert_eq; eapply lookup_lt_Some, Hq|].
        reflexivity.
      * exists c'. split; [|exact Hk'].
        rewrite list_lookup_insert_ne; [exact Hc' | congruence].
    + injection Hs as <- _.
      eexists. split; [apply list_lookup_insert_eq; eapply lookup_lt_Some, Hq|].
      reflexivity.
  - apply noEscalation_snoc; [exact H1|]. intros p d Heq.
    injection Heq as <- Hs _. apply Hfresh, Hs.
  - intros p Hd. apply delivered_snoc in Hd as [Hd|[s' Hs]]; [|discriminate].
    apply H2, Hd.
Qed.

Lemma orderly_sigterm q : preserves Orderly (kill q SIGTERM).
Proof.
  intros w H. destruct (children w !! q) as [c|] eqn:Hq.
  - eapply orderly_kill_when; [exact H | exact Hq | discriminate].
  - unfold kill, exec. rewrite Hq. exact H.
Qed.

(** [if (!child.killed) child.kill('SIGKILL')] *)
Lemma orderly_guarded_sigkill q w :
  Orderly w ->
  Orderly (exec (if eval (child_killed q) w then skip else kill q SIGKILL) w).
Proof.
  intros H. unfold child_killed, eval. simpl.
  destruct (children w !! q) as [c|] eqn:Hq.
  - destruct (killed c) eqn:Hk; [exact H|].
    eapply orderly_kill_when; [exact H | exact Hq | intros _; exact Hk].
  - unfold kill, exec. rewrite Hq. exact H.
Qed.

Ltac orderly_leaf :=
  first [ frame | apply orderly_sigterm | apply orderly_emit
        | apply orderly_spawn | apply orderly_reap ].

Lemma orderly_handler ev : preserves Orderly (handler ev).
Proof.
  known Orderly allSettled ltac:(unfold allSettled, finalExit; carry ltac:(orderly_leaf)).
  known Orderly resolveChild ltac:(unfold resolveChild; carry ltac:(orderly_leaf)).
  assert (preserves Orderly hangSigkillCallback) as Hhang.
  { intros w Hw. unfold hangSigkillCallback. rewrite exec_bind.
    change (exec (read claudeProcess) w) with w.
    destruct (eval (read claudeProcess) w) as [p|]; [|exact Hw].
    rewrite exec_bind. change (exec (child_killed p) w) with w.
    apply orderly_guarded_sigkill, Hw. }
  assert (preserves Orderly forceKillCallback) as Hforce.
  { intros w Hw. unfold forceKillCallback. rewrite exec_bind.
    change (exec (read claudeProcess) w) with w.
    destruct (eval (read claudeProcess) w) as [p|]; [|exact Hw].
    rewrite exec_bind. change (exec (child_killed p) w) with w.
    rewrite exec_bind.
    assert (preserves Orderly (resolveChild ;;; allSettled)) as Hrest
      by (carry ltac:(orderly_leaf)).
    apply Hrest, orderly_guarded_sigkill, Hw. }
  every_handler Orderly ltac:(orderly_leaf). auto.
Qed.

Lemma orderly_boot env_session arg now : Orderly (boot env_session arg now).
Proof.
  unfold boot.
  assert (preserves Orderly initializeSupervisor) as H
    by (unfold initializeSupervisor; carry ltac:(frame)).
  apply H. split.
  - intros before p d after Heq. destruct before; discriminate.
  - intros p [s []].
Qed.

(** No child is sent SIGKILL after a signal has been delivered to that
    same child.  In every reachable world, when [kill('SIGKILL')] is called
    on a child, no earlier [kill()] on that child has delivered its signal;
    and every child to which a signal was delivered has its [killed] flag
    set, which is what makes a SIGKILL timeout skip that child. *)
Theorem no_sigkill_after_signal_to_same_child (w : World) :
  reachable w ->
  noEscalation (trace w) /\
  forall p, delivered p (trace w) ->
            exists c, children w !! p = Some c /\ killed c = true.
Proof.
  induction 1 as [env_session arg now | w ev now Hw IH He].
  - apply orderly_boot.
  - apply orderly_handler. exact IH.
Qed.

Lemma no_sigkill_after_signal_to_same_child_witness :
  noEscalation
    (trace (play Scenario.started
              (Scenario.hang_then_success ++ [(EvTimer 1%nat, 307000)]))).
Proof.
  apply no_sigkill_after_signal_to_same_child.
  apply (run_reachable Scenario.started
           (Scenario.hang_then_success ++ [(EvTimer 1%nat, 307000)]));
    [exact started_reachable|].
  vm_compute. reflexivity.
Defined.

(** The SIGKILL timeout of [killHangingProcess] does not remember the child
    that hung: when it fires it reads [claudeProcess], and a current child
    that is running and was never signalled is sent SIGKILL, whichever
    child the timeout was armed for. *)
Theorem stale_sigkill_reaches_current_child
    (w : World) (id : nat) (t : Timer) (q p : nat) (c : ChildProcess) (now : Z) :
  timers w !! id = Some t -> task t = HangSigkill q ->
  claudeProcess (st w) = Some p -> children w !! p = Some c ->
  killed c = false -> running c = true ->
  trace (dispatch (EvTimer id) now w) = trace w ++ [KillCall p SIGKILL true] /\
  children (dispatch (EvTimer id) now w) !! p = Some (mkChild (pid c) true true).
Proof.
  intros Ht Hq Hp Hc Hk Hr.
  unfold dispatch. cbn [handler]. unfold fireTimer, exec.
  change (timers (set_clock now w)) with (timers w). rewrite Ht, Hq.
  cbn [runTask].
  unfold hangSigkillCallback, bind, read, child_killed, kill. simpl.
  rewrite Hp. simpl. rewrite Hc. simpl. rewrite Hk. simpl. rewrite Hc, Hr. simpl.
  split; [reflexivity|].
  apply list_lookup_insert_eq. eapply lookup_lt_Some, Hc.
Qed.

Lemma stale_sigkill_reaches_current_child_witness :
  run Scenario.started
    [(EvTimer 0%nat, 302000); (EvChildExit 0%nat None, 302100);
     (EvTimer 2%nat, 304100); (EvTimer 1%nat, 307000)]
  = Some (dispatch (EvTimer 1%nat) 307000
            (play Scenario.started
               [(EvTimer 0%nat, 302000); (EvChildExit 0%nat None, 302100);
                (EvTimer 2%nat, 304100)])) /\
  trace (dispatch (EvTimer 1%nat) 307000
           (play Scenario.started
              [(EvTimer 0%nat, 302000); (EvChildExit 0%nat None, 302100);
               (EvTimer 2%nat, 304100)]))
  = [Spawned 0; KillCall 0 SIGTERM true; Spawned 1; KillCall 1 SIGKILL true].
Proof.
  split; [vm_compute; reflexivity|].
  destruct (stale_sigkill_reaches_current_child
              (play Scenario.started
                 [(EvTimer 0%nat, 302000); (EvChildExit 0%nat None, 302100);
                  (EvTimer 2%nat, 304100)])
              1%nat (mkTimer (HangSigkill 0) 307000 None) 0%nat 1%nat
              (mkChild 1 false true) 307000) as [H _];
    [vm_compute; reflexivity .. |].
  rewrite H. vm_compute. reflexivity.
Defined.

(** ** The child handle *)

Lemma current_kill q s : preserves Current (kill q s).
Proof.
  intros w H. unfold kill, exec, Current, newestChild in *.
  destruct (children w !! q) as [c|]; [|exact H].
  destruct (running c); simpl; [rewrite length_insert|]; exact H.
Qed.

Lemma current_reap q : preserves Current (reap q).
Proof.
  intros w H. unfold reap, exec, Current, newestChild in *.
  destruct (children w !! q) as [c|]; [|exact H].
  simpl. rewrite length_insert. exact H.
Qed.

Lemma current_spawn : preserves Current spawnClaudeProcess.
Proof.
  intros w H. unfold spawnClaudeProcess, exec, bind, read. simpl.
  destruct (shuttingDown (st w)); [exact H|].
  unfold Current, newestChild. simpl. rewrite length_app. simpl.
  replace (length (children w) + 1)%nat with (S (length (children w))) by lia.
  reflexivity.
Qed.

Ltac current_leaf := first [ frame | apply current_kill | apply current_reap ].

Lemma current_handler ev : preserves Current (handler ev).
Proof.
  pose proof current_spawn.
  every_handler Current ltac:(current_leaf). auto.
Qed.

Lemma current_boot env_session arg now : Current (boot env_session arg now).
Proof.
  unfold boot.
  assert (preserves Current initializeSupervisor) as H
    by (unfold initializeSupervisor; carry ltac:(frame)).
  apply H. reflexivity.
Qed.

(** [claudeProcess] is [null] only while no child has been spawned.  From
    the first spawn on it refers to the child spawned last, also after
    that child has terminated: no reaction sets it back to [null]. *)
Theorem child_handle_is_newest_child (w : World) :
  reachable w ->
  claudeProcess (st w) = newestChild w /\
  (claudeProcess (st w) = None <-> children w = []) /\
  forall ev now,
    claudeProcess (st w) <> None -> claudeProcess (st (dispatch ev now w)) <> None.
Proof.
  intros Hw.
  assert (Current w) as H.
  { induction Hw as [env_session arg now | w ev now Hw IH He].
    - apply current_boot.
    - apply current_handler. exact IH. }
  split; [exact H|]. split.
  - unfold Current, newestChild in H. rewrite H.
    destruct (children w); simpl; split; congruence.
  - intros ev now Hne.
    assert (Current (dispatch ev now w)) as H' by (apply current_handler; exact H).
    assert (length (children w) <= length (children (dispatch ev now w)))%nat as Hlen.
    { clear -H. unfold dispatch.
      assert (preserves (fun w' => (length (children w) <= length (children w'))%nat)
                (handler ev)) as Hp; [|apply Hp; simpl; lia].
      set (P := fun w' => (length (children w) <= length (children w'))%nat).
      assert (preserves P spawnClaudeProcess) as Hs.
      { intros w' Hw'. unfold spawnClaudeProcess, exec, bind, read, P in *. simpl.
        destruct (shuttingDown (st w')); simpl; [exact Hw'|].
        rewrite length_app. lia. }
      assert (forall q s, preserves P (kill q s)) as Hk.
      { intros q s w' Hw'. unfold kill, exec, P in *.
        destruct (children w' !! q) as [c|]; [|exact Hw'].
        destruct (running c); simpl; [rewrite length_insert|]; exact Hw'. }
      assert (forall q, preserves P (reap q)) as Hr.
      { intros q w' Hw'. unfold reap, exec, P in *.
        destruct (children w' !! q) as [c|]; [|exact Hw'].
        simpl. rewrite length_insert. exact Hw'. }
      every_handler P ltac:(first [frame | apply Hk | apply Hr]). auto. }
    unfold Current, newestChild in H, H'. rewrite H in Hne. rewrite H'.
    destruct (length (children w)); [congruence|].
    destruct (length (children (dispatch ev now w))); [lia | discriminate].
Qed.

Lemma child_handle_is_newest_child_witness :
  claudeProcess (st (play Scenario.started Scenario.plain_failure))
  = newestChild (play Scenario.started Scenario.plain_failure).
Proof.
  apply child_handle_is_newest_child.
  apply (run_reachable Scenario.started Scenario.plain_failure).
  - exact started_reachable.
  - vm_compute. reflexivity.
Defined.

(** ** The logger *)

Lemma logLevels_known level rank :
  Logger.logLevels !! level = Some rank ->
  (level = js "debug" /\ rank = 0) \/ (level = js "info" /\ rank = 1) \/
  (level = js "warn" /\ rank = 2) \/ (level = js "error" /\ rank = 3).
Proof.
  unfold Logger.logLevels. intros H.
  repeat (rewrite lookup_insert in H; case_decide;
          [injection H as <-; subst; auto|]).
  rewrite lookup_empty in H. discriminate.
Qed.

(** [shouldLog] lets a message through exactly when the configured level
    is among [debug], [info], [warn], [error] and the level of the message
    ranks at least as high.  So whatever lets a message through lets every
    message of a higher level through; every recognised configuration logs
    errors; and a configured level outside the four (a misspelt
    [LOG_LEVEL]) silences the logger altogether, errors included.  Without
    [LOG_LEVEL], or with an empty one, everything but [debug] is logged. *)
Theorem shouldLog_threshold (threshold : jsstring) (level : Logger.Level) :
  (Logger.shouldLog threshold level = true <->
   exists rank least,
     Logger.logLevels !! Logger.levelName level = Some rank /\
     Logger.logLevels !! threshold = Some least /\ least <= rank) /\
  (forall higher rank rank',
     Logger.shouldLog threshold level = true ->
     Logger.logLevels !! Logger.levelName level = Some rank ->
     Logger.logLevels !! Logger.levelName higher = Some rank' -> rank <= rank' ->
     Logger.shouldLog threshold higher = true) /\
  (is_Some (Logger.logLevels !! threshold) ->
   Logger.shouldLog threshold Logger.Error = true) /\
  (Logger.logLevels !! threshold = None ->
   forall any, Logger.shouldLog threshold any = false) /\
  (forall env_log_level,
     env_log_level = None \/ env_log_level = Some [] ->
     (Logger.shouldLog (Logger.logLevel env_log_level) level = true <->
      level <> Logger.Debug)).
Proof.
  split; [|split; [|split; [|split]]].
  - unfold Logger.shouldLog.
    destruct (Logger.logLevels !! Logger.levelName level) as [rank|];
      destruct (Logger.logLevels !! threshold) as [least|]; split;
      try discriminate; try (intros (? & ? & ? & ? & ?); discriminate).
    + intros H. exists rank, least. repeat split. apply Z.geb_le in H. lia.
    + intros (r & l & [= <-] & [= <-] & Hle). apply Z.geb_le. lia.
  - intros higher rank rank' H Hl Hh Hle. unfold Logger.shouldLog in *.
    rewrite Hl in H. rewrite Hh.
    destruct (Logger.logLevels !! threshold) as [least|]; [|discriminate].
    apply Z.geb_le in H. apply Z.geb_le. lia.
  - intros [least Hl]. unfold Logger.shouldLog. rewrite Hl.
    replace (Logger.logLevels !! Logger.levelName Logger.Error)
      with (Some 3) by reflexivity.
    apply Z.geb_le.
    destruct (logLevels_known _ _ Hl) as [[_ ->]|[[_ ->]|[[_ ->]|[_ ->]]]]; lia.
  - intros Hn any. unfold Logger.shouldLog. rewrite Hn.
    destruct (Logger.logLevels !! Logger.levelName any); reflexivity.
  - intros env [-> | ->]; destruct level; vm_compute;
      split; congruence.
Qed.

(** ** The shutdown timeout *)

(** *** Before the request: the stored handle is an old one *)

Lemma bounded_same {A} (m : M A) :
  (forall w, hangDetectionInterval (st (exec m w)) = hangDetectionInterval (st w) /\
             (nextTimer w <= nextTimer (exec m w))%nat) ->
  preserves Bounded m.
Proof.
  intros Hm w H h Hh. destruct (Hm w) as (E1 & E2).
  rewrite E1 in Hh. specialize (H h Hh). lia.
Qed.

Lemma bounded_startHangDetection : preserves Bounded startHangDetection.
Proof.
  intros w H h. unfold startHangDetection, setInterval, arm, exec, bind, write.
  simpl. intros [= <-]. lia.
Qed.

Ltac bounded_leaf :=
  apply bounded_same; intro;
  cbv [exec read write Date_now emit process_exit arm setTimeout setInterval
       clearTimer spawn child_killed kill get_cleanup put_cleanup reap skip ret];
  cbn beta iota; repeat case_match; split; simpl; first [reflexivity | lia].

Lemma bounded_handler ev : preserves Bounded (handler ev).
Proof.
  pose proof bounded_startHangDetection.
  every_handler Bounded ltac:(bounded_leaf). auto.
Qed.

Lemma reachable_bounded w : reachable w -> Bounded w.
Proof.
  induction 1 as [e a now | w ev now Hw IH Hen].
  - unfold boot.
    assert (preserves Bounded initializeSupervisor) as Hi
      by (unfold initializeSupervisor; carry ltac:(bounded_leaf)).
    apply Hi. intros h Hh. discriminate.
  - unfold dispatch. apply bounded_handler. exact IH.
Qed.

(** *** The request arms the timeout *)

Lemma gracefulShutdown_world w c r :
  shuttingDown (st w) = false ->
  let w' := exec (gracefulShutdown c r) w in
  shuttingDown (st w') = true /\ exitCode (st w') = Some c /\
  hangDetectionInterval (st w') = hangDetectionInterval (st w) /\
  (nextTimer w < nextTimer w')%nat /\
  (match claudeProcess (st w) with
   | Some p => if eval (child_killed p) w then nextTimer w' = S (nextTimer w)
               else nextTimer w' = S (S (nextTimer w))
   | None => nextTimer w' = S (nextTimer w)
   end) /\
  (forall cl p h, cleanup w' = Some cl -> childPending cl = Some (p, h) ->
     h = nextTimer w /\ claudeProcess (st w) = Some p /\
     eval (child_killed p) w = false).
Proof.
  intros Hsd. cbn zeta.
  unfold gracefulShutdown, allSettled, finalExit, process_exit, setTimeout, arm,
    clearTimer, kill, child_killed, emit, put_cleanup, get_cleanup,
    exec, eval, bind, read, write, skip, ret.
  simpl. rewrite Hsd. simpl.
  repeat (case_match; simplify_eq/=); repeat split; try lia; try reflexivity;
    intros; simplify_eq/=; repeat split; try congruence;
    repeat case_match; simplify_eq/=; congruence.
Qed.

Lemma shutdown_request_arms w c r :
  Bounded w -> shuttingDown (st w) = false ->
  ShuttingDownFor c r (clock w) (exec (gracefulShutdown c r) w).
Proof.
  intros Hb Hsd.
  destruct (gracefulShutdown_world w c r Hsd) as (H1 & H2 & H3 & H4 & H5 & H6).
  pose proof (gracefulShutdown_timers w c r Hsd) as Ht. cbn zeta in *.
  split; [exact H1|]. split; [exact H2|]. split.
  { intros h Hh. rewrite H3 in Hh. specialize (Hb h Hh). lia. }
  intros _.
  destruct (claudeProcess (st w)) as [p|] eqn:Hp;
    [destruct (eval (child_killed p) w) eqn:Hk|].
  - exists (nextTimer w). eexists. rewrite Ht.
    split; [apply lookup_insert_eq|]. simpl.
    repeat split; try lia.
    + rewrite H3. intros Hh. specialize (Hb _ Hh). lia.
    + intros cl q h Hcl Hq. destruct (H6 cl q h Hcl Hq) as (_ & [= <-] & Hk').
      congruence.
  - exists (S (nextTimer w)). eexists. rewrite Ht.
    split; [apply lookup_insert_eq|]. simpl.
    repeat split; try lia.
    + rewrite H3. intros Hh. specialize (Hb _ Hh). lia.
    + intros cl q h Hcl Hq. destruct (H6 cl q h Hcl Hq) as (-> & _). lia.
  - exists (nextTimer w). eexists. rewrite Ht.
    split; [apply lookup_insert_eq|]. simpl.
    repeat split; try lia.
    + rewrite H3. intros Hh. specialize (Hb _ Hh). lia.
    + intros cl q h Hcl Hq. destruct (H6 cl q h Hcl Hq) as (_ & [=] & _).
Qed.

(** *** After the request: nothing cancels the timeout *)

Section ShutdownRequest.
Variables (c : Z) (r : jsstring) (T : Z).

Let Inv := ShuttingDownFor c r T.

Lemma sdf_same {A} (m : M A) :
  (forall w, shuttingDown (st (exec m w)) = shuttingDown (st w) /\
             exitCode (st (exec m w)) = exitCode (st w) /\
             hangDetectionInterval (st (exec m w)) = hangDetectionInterval (st w) /\
             timers (exec m w) = timers w /\
             nextTimer (exec m w) = nextTimer w /\
             cleanup (exec m w) = cleanup w /\
             exited (exec m w) = exited w) ->
  preserves Inv m.
Proof.
  intros Hm w H. destruct (Hm w) as (E1 & E2 & E3 & E4 & E5 & E6 & E7).
  unfold Inv, ShuttingDownFor, Bounded, ArmedFor in *.
  rewrite E1, E2, E3, E4, E5, E6, E7. exact H.
Qed.

Lemma sdf_arm t d p : preserves Inv (arm t d p).
Proof.
  intros w (H1 & H2 & Hb & Ha). unfold arm, exec. simpl.
  split; [exact H1|]. split; [exact H2|]. split.
  - unfold Bounded. simpl. intros h Hh. specialize (Hb h Hh). lia.
  - intros Hex. destruct (Ha Hex) as (id & tm & G1 & G2 & G3 & G4 & G5 & G6).
    exists id, tm. simpl. repeat split; try assumption; [|lia].
    rewrite lookup_insert_ne; [exact G1 | lia].
Qed.

Lemma sdf_exit c' r' : preserves Inv (process_exit c' r').
Proof.
  intros w (H1 & H2 & Hb & Ha). unfold process_exit, exec.
  destruct (exited w) eqn:E; [repeat split; assumption|].
  simpl. repeat split; try assumption. intros Hex. discriminate.
Qed.

Lemma sdf_clear_interval :
  preserves Inv (let* h := read hangDetectionInterval in clearTimer h).
Proof.
  intros w H. unfold exec, bind, read, clearTimer. simpl.
  destruct (hangDetectionInterval (st w)) as [h|] eqn:Eh; [|exact H].
  destruct H as (H1 & H2 & Hb & Ha). simpl.
  split; [exact H1|]. split; [exact H2|]. split; [exact Hb|].
  intros Hex. destruct (Ha Hex) as (id & tm & G1 & G2 & G3 & G4 & G5 & G6).
  exists id, tm. simpl. repeat split; try assumption.
  rewrite lookup_delete_ne; [exact G1 | congruence].
Qed.

Lemma sdf_startHangDetection : preserves Inv startHangDetection.
Proof.
  intros w (H1 & H2 & Hb & Ha).
  unfold startHangDetection, setInterval, arm, exec, bind, write. simpl.
  split; [exact H1|]. split; [exact H2|]. split.
  - unfold Bounded. simpl. intros h [= <-]. lia.
  - intros Hex. destruct (Ha Hex) as (id & tm & G1 & G2 & G3 & G4 & G5 & G6).
    exists id, tm. simpl. repeat split; try assumption; [| lia |].
    + rewrite lookup_insert_ne; [exact G1 | lia].
    + intros [= Heq]. lia.
Qed.

Lemma sdf_resolveHttp : preserves Inv resolveHttp.
Proof.
  intros w H. unfold resolveHttp, exec, bind, get_cleanup, put_cleanup. simpl.
  destruct (cleanup w) as [cl|] eqn:Ec; [|exact H].
  destruct H as (H1 & H2 & Hb & Ha). simpl.
  split; [exact H1|]. split; [exact H2|]. split; [exact Hb|].
  intros Hex. destruct (Ha Hex) as (id & tm & G1 & G2 & G3 & G4 & G5 & G6).
  exists id, tm. simpl. repeat split; try assumption.
  intros cl' p h [= <-] Hp. simpl in Hp. exact (G6 cl p h Ec Hp).
Qed.

Lemma sdf_resolveChild : preserves Inv resolveChild.
Proof.
  intros w H. unfold resolveChild, exec, bind, get_cleanup, put_cleanup. simpl.
  destruct (cleanup w) as [cl|] eqn:Ec; [|exact H].
  destruct H as (H1 & H2 & Hb & Ha). simpl.
  split; [exact H1|]. split; [exact H2|]. split; [exact Hb|].
  intros Hex. destruct (Ha Hex) as (id & tm & G1 & G2 & G3 & G4 & G5 & G6).
  exists id, tm. simpl. repeat split; try assumption.
  intros cl' p h [= <-] Hp. discriminate.
Qed.

Lemma sdf_latched {A} (m : M A) :
  (forall w, shuttingDown (st w) = true -> exec m w = w) -> preserves Inv m.
Proof. intros Hm w H. rewrite Hm; [exact H | apply H]. Qed.

Ltac sdf_leaf :=
  first [ apply sdf_exit
        | unfold setTimeout, setInterval; apply sdf_arm
        | apply sdf_same; intro;
          cbv [exec read write Date_now emit spawn child_killed kill get_cleanup
               reap skip ret];
          cbn beta iota; repeat case_match; repeat split; reflexivity ].

Lemma sdf_fire id :
  (forall t, isCleanupTimeout t = false -> preserves Inv (runTask t)) ->
  preserves Inv (fireTimer id).
Proof.
  intros Hrun w H. unfold fireTimer, exec.
  destruct (timers w !! id) as [t|] eqn:Et; [|exact H].
  destruct (isCleanupTimeout (task t)) eqn:Ect.
  - destruct (task t) as [| | | |c' r']; try discriminate.
    destruct H as (H1 & H2 & Hb & Ha).
    unfold runTask, cleanupTimeoutCallback, finalExit, process_exit. simpl.
    destruct (exited w) eqn:Ex; simpl;
      (split; [exact H1|]; split; [exact H2|]; split; [exact Hb|]);
      intros Hex; simpl in Hex; congruence.
  - apply Hrun; [exact Ect|]. destruct H as (H1 & H2 & Hb & Ha).
    split; [exact H1|]. split; [exact H2|]. split; [exact Hb|].
    intros Hex. destruct (Ha Hex) as (i & tm & G1 & G2 & G3 & G4 & G5 & G6).
    assert (i <> id) as Hne.
    { intros ->. rewrite Et in G1. injection G1 as ->. rewrite G2 in Ect.
      discriminate. }
    exists i, tm. simpl. repeat split; try assumption.
    destruct (period t).
    + rewrite lookup_insert_ne; [exact G1 | congruence].
    + rewrite lookup_delete_ne; [exact G1 | congruence].
Qed.

Lemma sdf_listener w cl q h :
  Inv w -> cleanup w = Some cl -> childPending cl = Some (q, h) ->
  preserves Inv allSettled ->
  Inv (exec (shutdownExitListener h) w).
Proof.
  intros (H1 & H2 & Hb & Ha) Ec Hp Hset. unfold shutdownExitListener.
  rewrite exec_bind. cbv beta. rewrite exec_bind. cbv beta.
  apply Hset, sdf_resolveChild.
  unfold exec, clearTimer. simpl.
  split; [exact H1|]. split; [exact H2|]. split; [exact Hb|].
  intros Hex. destruct (Ha Hex) as (id & tm & G1 & G2 & G3 & G4 & G5 & G6).
  exists id, tm. simpl. repeat split; try assumption.
  rewrite lookup_delete_ne; [exact G1|]. exact (G6 cl q h Ec Hp).
Qed.

Lemma sdf_emitExit p code :
  preserves Inv (reap p) -> preserves Inv (onExit code) ->
  preserves Inv allSettled ->
  preserves Inv (emitExit p code).
Proof.
  intros Hreap Hexit Hset w H. unfold emitExit. rewrite exec_bind. cbv beta.
  change (exec get_cleanup w) with w. change (eval get_cleanup w) with (cleanup w).
  rewrite exec_bind. cbv beta. rewrite exec_bind. cbv beta.
  pose proof (Hexit _ (Hreap _ H)) as H2.
  destruct (cleanup w) as [cl|] eqn:Ec; [|exact H2].
  destruct (childPending cl) as [[q h]|] eqn:Ep; [|exact H2].
  case_bool_decide; [|exact H2].
  apply (sdf_listener _ cl q h); [exact H2 | | exact Ep | exact Hset].
  assert (shuttingDown (st w) = true) as Hsd by apply H.
  rewrite <- Ec. unfold reap, exec.
  destruct (children w !! p); unfold onExit, bind, write, read; simpl;
    rewrite Hsd; reflexivity.
Qed.

Lemma sdf_handler ev : preserves Inv (handler ev).
Proof.
  assert (forall c' r', preserves Inv (gracefulShutdown c' r'))
    by (intros c' r'; apply sdf_latched; intros w;
        apply gracefulShutdown_latched).
  pose proof sdf_clear_interval. pose proof sdf_startHangDetection.
  pose proof sdf_resolveHttp. pose proof sdf_resolveChild.
  assert (preserves Inv allSettled) as Hset
    by (pose proof sdf_exit; unfold allSettled, finalExit; carry ltac:(frame)).
  every_handler Inv ltac:(sdf_leaf).
  assert (forall p code, preserves Inv (emitExit p code))
    by (intros; apply sdf_emitExit; [sdf_leaf | auto | exact Hset]).
  assert (forall id, preserves Inv (fireTimer id)).
  { intros id. apply sdf_fire. intros t Ht.
    destruct t; cbn in *; try discriminate; assumption. }
  every_handler Inv ltac:(sdf_leaf).
  auto.
Qed.

Lemma sdf_play script : forall w, Inv w -> Inv (play w script).
Proof.
  induction script as [|[ev now] script IH]; intros w H; [exact H|].
  change (play w ((ev, now) :: script)) with (play (dispatch ev now w) script).
  apply IH. unfold dispatch. apply sdf_handler. exact H.
Qed.
End ShutdownRequest.

(** After a shutdown request that is not latched out, and whatever events
    follow it, as long as the process has not exited: the latch is set,
    the recorded exit code is that of the request, the shutdown timeout
    that the request armed is still pending (no callback cancels it), it
    is due [GRACEFUL_SHUTDOWN_TIMEOUT_MS] after the time of the request,
    and when it fires the process exits with the code and reason of the
    request. *)
Theorem shutdown_timeout_stays_armed
    (w : World) (c : Z) (r : jsstring) (script : list (Event * Z)) :
  reachable w -> shuttingDown (st w) = false ->
  exited (play (exec (gracefulShutdown c r) w) script) = None ->
  shuttingDown (st (play (exec (gracefulShutdown c r) w) script)) = true /\
  exitCode (st (play (exec (gracefulShutdown c r) w) script)) = Some c /\
  exists id t,
    timers (play (exec (gracefulShutdown c r) w) script) !! id = Some t /\
    task t = CleanupTimeout c r /\
    due t = clock w + CONFIG.GRACEFUL_SHUTDOWN_TIMEOUT_MS /\
    forall now,
      exited (dispatch (EvTimer id) now
                (play (exec (gracefulShutdown c r) w) script))
      = Some (c, Some r).
Proof.
  intros Hw Hsd Hex.
  pose proof (shutdown_request_arms w c r (reachable_bounded w Hw) Hsd) as H0.
  apply (sdf_play c r (clock w) script) in H0.
  set (w' := play (exec (gracefulShutdown c r) w) script) in *.
  destruct H0 as (H1 & H2 & _ & Ha).
  split; [exact H1|]. split; [exact H2|].
  destruct (Ha Hex) as (id & t & G1 & G2 & G3 & _).
  exists id, t. repeat split; try assumption.
  intros now. unfold dispatch. cbn [handler]. unfold fireTimer, exec.
  change (timers (set_clock now w')) with (timers w'). rewrite G1, G2.
  unfold runTask, cleanupTimeoutCallback, finalExit, process_exit. simpl.
  rewrite Hex. reflexivity.
Qed.

Lemma shutdown_timeout_stays_armed_witness :
  exitCode (st (play (exec (gracefulShutdown 0 (js "SIGTERM received"))
                        Scenario.started)
                  [(EvServerClosed, 2002)])) = Some 0.
Proof.
  destruct (shutdown_timeout_stays_armed Scenario.started 0
              (js "SIGTERM received") [(EvServerClosed, 2002)]) as (_ & H & _).
  - exact started_reachable.
  - reflexivity.
  - vm_compute. reflexivity.
  - exact H.
Defined.

(** ** Children and restarts *)

Lemma spawn_same {A} (m : M A) :
  (forall w, restartCount (st (exec m w)) = restartCount (st w) /\
             length (children (exec m w)) = length (children w) /\
             (initPending (exec m w) = true -> initPending w = true)) ->
  preserves SpawnInv m.
Proof.
  intros Hm w (Hlo & Hhi). destruct (Hm w) as (E1 & E2 & E3).
  unfold SpawnInv. rewrite E1, E2. split; [exact Hlo|].
  destruct (initPending (exec m w)); [rewrite E3 in Hhi by reflexivity|];
    destruct (initPending w); lia.
Qed.

Ltac spawn_leaf :=
  apply spawn_same; intro;
  cbv [exec read write Date_now emit process_exit arm setTimeout setInterval
       clearTimer child_killed kill get_cleanup put_cleanup reap skip ret];
  cbn beta iota; repeat case_match; repeat split; simpl;
  rewrite ?length_insert;
  first [ reflexivity | discriminate | exact (fun H => H) ].

Lemma spawn_restartCallback : preserves SpawnInv restartCallback.
Proof.
  intros w (Hlo & Hhi).
  unfold restartCallback, recordRestartAttempt, spawnClaudeProcess,
    startHangDetection, setInterval, arm, spawn, exec, bind, read, write,
    Date_now, skip, ret.
  simpl. destruct (shuttingDown (st w)) eqn:Esd; simpl; [split; assumption|].
  rewrite Esd. unfold SpawnInv. simpl. rewrite length_app. simpl.
  destruct (initPending w); lia.
Qed.

Lemma spawn_first w :
  initPending w = true -> SpawnInv w -> SpawnInv (exec (handler EvListening) w).
Proof.
  intros Hinit (Hlo & Hhi). rewrite Hinit in Hhi.
  cbn [handler].
  unfold initializeSupervisor_resume, spawnClaudeProcess,
    startHangDetection, setInterval, arm, spawn, exec, bind, read, write,
    Date_now, skip, ret.
  simpl. destruct (shuttingDown (st w)) eqn:Esd; unfold SpawnInv; simpl;
    rewrite ?length_app; simpl; lia.
Qed.

Lemma spawn_handler ev :
  ev <> EvListening -> preserves SpawnInv (handler ev).
Proof.
  intros Hev. pose proof spawn_restartCallback.
  every_handler SpawnInv ltac:(spawn_leaf).
  destruct ev; try congruence; cbn [handler];
    unfold initializeSupervisor_catch, onError, onProcessSignal,
      onUncaughtException, onUnhandledRejection;
    carry ltac:(spawn_leaf).
Qed.

Lemma spawn_boot env_session arg now : SpawnInv (boot env_session arg now).
Proof.
  unfold boot, initializeSupervisor, exec, bind, read, write, process_exit.
  simpl. repeat case_match; unfold SpawnInv; simpl; lia.
Qed.

Lemma reachable_spawn w : reachable w -> SpawnInv w.
Proof.
  induction 1 as [e a now | w ev now Hw IH Hen].
  - apply spawn_boot.
  - unfold dispatch.
    assert (SpawnInv (set_clock now w)) as Hc by exact IH.
    assert (ev = EvListening \/ ev <> EvListening) as [->|Hev]
      by (destruct ev; first [left; reflexivity | right; discriminate]).
    + apply spawn_first; [|exact Hc].
      unfold enabled in Hen. apply andb_prop in Hen as [_ Hen]. exact Hen.
    + apply spawn_handler; assumption.
Qed.

(** The restart count is the number of children spawned after the first:
    every counted restart has spawned a child, and at most one child, the
    one spawned when the status server starts listening, is not a counted
    restart. *)
Theorem restartCount_counts_respawned_children w :
  reachable w ->
  restartCount (st w) <= Z.of_nat (length (children w)) <= restartCount (st w) + 1.
Proof.
  intros Hw. destruct (reachable_spawn w Hw) as (Hlo & Hhi).
  destruct (initPending w); lia.
Qed.

Lemma restartCount_counts_respawned_children_witness :
  restartCount (st (play Scenario.started Scenario.plain_failure))
  <= Z.of_nat (length (children (play Scenario.started Scenario.plain_failure)))
  <= restartCount (st (play Scenario.started Scenario.plain_failure)) + 1.
Proof.
  apply restartCount_counts_respawned_children.
  apply (run_reachable Scenario.started Scenario.plain_failure).
  - exact started_reachable.
  - vm_compute. reflexivity.
Defined.

(** ** The report of the test suite *)

Lemma filter_split_length {A} (f : A -> bool) (l : list A) :
  (length (List.filter f l) + length (List.filter (fun a => negb (f a)) l)
   = length l)%nat.
Proof.
  induction l as [|a l IH]; cbn; [reflexivity|]. destruct (f a); cbn; lia.
Qed.

Lemma filter_none_iff {A} (f : A -> bool) (l : list A) :
  length (List.filter (fun a => negb (f a)) l) = O <->
  forall a, In a l -> f a = true.
Proof.
  induction l as [|a l IH]; cbn.
  - split; [intros _ b [] | reflexivity].
  - destruct (f a) eqn:E; cbn.
    + rewrite IH. split.
      * intros H b [<-|Hb]; [exact E | apply H, Hb].
      * intros H b Hb. apply H. right. exact Hb.
    + split; [discriminate|]. intros H.
      specialize (H a (or_introl eq_refl)). congruence.
Qed.

(** [generateTestReport] counts every recorded result as passed or failed,
    exits with status 0 when every recorded result passed and with status 1
    otherwise, and when it exits with status 0 every checklist line whose
    test has a recorded result reads PASS; a checklist line whose test has
    no recorded result reads FAIL whatever the exit status. *)
Theorem test_report_exit_status (testResults : list TestSuite.TestResult) :
  let report := TestSuite.generateTestReport testResults in
  (TestSuite.passedCount report + TestSuite.failedCount report
   = TestSuite.total report)%nat /\
  (TestSuite.exitStatus report = 0 <->
   forall r, In r testResults -> TestSuite.passed r = true) /\
  (TestSuite.exitStatus report <> 0 -> TestSuite.exitStatus report = 1) /\
  (forall title test,
      In (title, test) TestSuite.validations ->
      (TestSuite.exitStatus report = 0 ->
       (exists r, In r testResults /\ TestSuite.name r = test) ->
       In (title, true) (TestSuite.checklist report)) /\
      ((forall r, In r testResults -> TestSuite.name r <> test) ->
       In (title, false) (TestSuite.checklist report))).
Proof.
  cbv zeta. unfold TestSuite.generateTestReport.
  cbn [TestSuite.passedCount TestSuite.failedCount TestSuite.total
       TestSuite.exitStatus TestSuite.checklist].
  pose proof (filter_none_iff TestSuite.passed testResults) as Hnone.
  assert ((if Nat.eqb (length (List.filter (fun r => negb (TestSuite.passed r))
                                 testResults)) 0
           then 0 else 1) = 0 <->
          forall r, In r testResults -> TestSuite.passed r = true) as Hexit.
  { rewrite <- Hnone. destruct (Nat.eqb _ 0) eqn:E.
    - apply Nat.eqb_eq in E. tauto.
    - apply Nat.eqb_neq in E. split; [discriminate | tauto]. }
  split; [apply filter_split_length|]. split; [exact Hexit|]. split.
  { destruct (Nat.eqb _ 0); [congruence | reflexivity]. }
  intros title test Hv. split.
  - intros H0 (r & Hr & Hname). pose proof (proj1 Hexit H0) as Hall.
    apply in_map_iff. exists (title, test). split; [|exact Hv]. cbn [fst snd].
    destruct (List.find _ testResults) as [r'|] eqn:Ef.
    + apply find_some in Ef as [Hin _]. rewrite (Hall r' Hin). reflexivity.
    + exfalso. pose proof (find_none _ _ Ef r Hr) as Hno. cbn beta in Hno.
      apply jsstring_eqb_false in Hno. exact (Hno Hname).
  - intros Hnone'. apply in_map_iff. exists (title, test).
    split; [|exact Hv]. cbn [fst snd].
    destruct (List.find _ testResults) as [r'|] eqn:Ef; [|reflexivity].
    apply find_some in Ef as [Hin Heq]. cbn beta in Heq.
    apply jsstring_eqb_true in Heq. exfalso. exact (Hnone' r' Hin Heq).
Qed.
